(** * spade_tests: the drone telemetry and video relay

    A shallow embedding of [framework/drone_utils.py] (the telemetry
    sampler [position_register]) and [framework/rtsp_utils.py] (the frame
    pipeline [rtsp_processing] and the pull source [restreaming]), with
    the properties of the relay pipeline stated over it.

    Conventions.
    - A [datetime] is the number of microseconds since a fixed origin
      (Python's datetime has microsecond resolution); a [timedelta] is a
      number of microseconds.
    - Calls into libraries whose code is not part of the repository
      (olympe, paho-mqtt, redis, OpenCV, GStreamer) are inputs of the
      model: what they return, and whether they raise, is given by an
      environment record for each callback invocation.
    - A Python exception is a value of [exn]; code that can raise lives
      in a small state-and-exception monad. *)

From Stdlib Require Import ZArith List String Bool Lia QArith Reals Lra.
Import ListNotations.

Local Open Scope string_scope.
Local Open Scope list_scope.
Local Open Scope Z_scope.

(** ** Python values shared by the modules *)

Module Py.

Inductive exn : Type :=
| TypeError (msg : string)
| ValueError (msg : string)
| AttributeError (msg : string)
| KeyError (key : string)
| RuntimeError (msg : string).

(** The outcome of a call: a returned value or a raised exception. *)
Inductive res (A : Type) : Type :=
| Ret (a : A)
| Raise (e : exn).
Arguments Ret {A} a.
Arguments Raise {A} e.

Definition returned {A} (r : res A) : bool :=
  match r with Ret _ => true | Raise _ => false end.

(** State-and-exception monad: the state written before a raise stays
    written, as in Python. *)
Definition M (S A : Type) : Type := S -> res A * S.

Definition ret {S A} (a : A) : M S A := fun s => (Ret a, s).
Definition raise {S A} (e : exn) : M S A := fun s => (Raise e, s).
Definition bind {S A B} (m : M S A) (k : A -> M S B) : M S B :=
  fun s => match m s with
           | (Ret a, s') => k a s'
           | (Raise e, s') => (Raise e, s')
           end.
Definition lift {S A} (r : res A) : M S A := fun s => (r, s).
Definition modify {S} (f : S -> S) : M S unit := fun s => (Ret tt, f s).

End Py.

Declare Scope py_scope.
Delimit Scope py_scope with py.
Notation "x <- m ;; k" := (Py.bind m (fun x => k))
  (at level 100, m at next level, right associativity) : py_scope.
Notation "m ;;; k" := (Py.bind m (fun _ => k))
  (at level 100, right associativity) : py_scope.

(** ** [position_register.haversine] (drone_utils.py, lines 39-51)

    numpy's float64 arithmetic is read as arithmetic over the reals. *)

Module Haversine.

Local Open Scope R_scope.

Definition deg2rad (x : R) : R := x * (PI / 180).

(** [self.init_lat] and [self.init_long] are the two first arguments. *)
Definition haversine (init_lat init_long curr_lat curr_long : R) : R :=
  let r := 6371 in
  let d_lat := deg2rad curr_lat - deg2rad init_lat in
  let d_long := deg2rad curr_long - deg2rad init_long in
  let root_part :=
    (sin (d_lat / 2)) ^ 2
    + cos (deg2rad init_lat) * cos (deg2rad curr_lat) * (sin (d_long / 2)) ^ 2 in
  let out_part := 2 * r * asin (sqrt root_part) in
  out_part * 1000.

(** The formula as the specification words it: latitudes and the two
    differences in radians, Earth radius [R] in kilometres, result in
    metres. *)
Definition haversine_formula (R_km lat0 long0 lat long : R) : R :=
  let dlat := deg2rad lat - deg2rad lat0 in
  let dlong := deg2rad long - deg2rad long0 in
  2 * R_km
  * asin (sqrt ((sin (dlat / 2))² + cos (deg2rad lat0) * cos (deg2rad lat) * (sin (dlong / 2))²))
  * 1000.

End Haversine.

(** ** The telemetry sampler: [position_register] (drone_utils.py) *)

Module Sampler.
Import Py.

Definition datetime : Type := Z.
Definition timedelta : Type := Z.

(** [strftime('%Y-%m-%d %H:%M:%S')]: the rendering of a datetime down to
    the second. Two datetimes render to the same text exactly when they
    lie in the same second, so the text is represented by the number of
    that second. *)
Definition strftime_YmdHMS (t : datetime) : Z := t / 1000000.

(** A float is kept as the term that gave it: a number read from the
    drone, or [np.round(x, decimals)] of a float. What numpy computes for
    the rounding is not part of the model. *)
Inductive pyfloat : Type :=
| Float (q : Q)
| np_round (x : pyfloat) (decimals : nat).

(** The values stored in the dictionaries of this module. *)
Inductive value : Type :=
| VFloat (x : pyfloat)
| VStr (s : string)
| VBool (b : bool)
| VDatetime (t : datetime).

(** A dictionary is a plain [dict] or a [collections.OrderedDict]; both
    keep their items in insertion order, only the second has
    [move_to_end]. *)
Inductive dict_class : Type := dict | OrderedDict.

Record pydict : Type := mkDict {
  cls : dict_class;
  items : list (string * value)
}.

Fixpoint lookup (k : string) (l : list (string * value)) : option value :=
  match l with
  | [] => None
  | (k', v) :: rest => if String.eqb k' k then Some v else lookup k rest
  end.

(** [d[k]] *)
Definition getitem (d : pydict) (k : string) : res value :=
  match lookup k (items d) with
  | Some v => Ret v
  | None => Raise (KeyError k)
  end.

Fixpoint set_item (k : string) (v : value) (l : list (string * value))
  : list (string * value) :=
  match l with
  | [] => [(k, v)]
  | (k', v') :: rest =>
      if String.eqb k' k then (k', v) :: rest else (k', v') :: set_item k v rest
  end.

(** [d.update({k: v})]: an existing key keeps its place. *)
Definition update (d : pydict) (k : string) (v : value) : pydict :=
  mkDict (cls d) (set_item k v (items d)).

Fixpoint remove_key (k : string) (l : list (string * value))
  : list (string * value) :=
  match l with
  | [] => []
  | (k', v') :: rest =>
      if String.eqb k' k then rest else (k', v') :: remove_key k rest
  end.

(** [d.move_to_end(k, last=last)]: a method of [OrderedDict] only. *)
Definition move_to_end (d : pydict) (k : string) (last : bool) : res pydict :=
  match cls d with
  | dict => Raise (AttributeError "'dict' object has no attribute 'move_to_end'")
  | OrderedDict =>
      match lookup k (items d) with
      | None => Raise (KeyError k)
      | Some v =>
          if last then Ret (mkDict OrderedDict (remove_key k (items d) ++ [(k, v)]))
          else Ret (mkDict OrderedDict ((k, v) :: remove_key k (items d)))
      end
  end.

(** The JSON object written by [json.dumps(d, default=self.json_serial)]:
    its members in the order of the dictionary; [json_serial] turns a
    datetime into its [isoformat()] text. *)
Inductive jvalue : Type :=
| JNumber (x : pyfloat)
| JString (s : string)
| JBool (b : bool)
| JIsoformat (t : datetime).

Definition json : Type := list (string * jvalue).

Definition json_serial (t : datetime) : jvalue := JIsoformat t.

Definition to_json (v : value) : jvalue :=
  match v with
  | VFloat x => JNumber x
  | VStr s => JString s
  | VBool b => JBool b
  | VDatetime t => json_serial t
  end.

Definition json_dumps (d : pydict) : json :=
  map (fun kv => (fst kv, to_json (snd kv))) (items d).

(** The drone states read with [get_state]. *)
Record AttitudeChanged : Type :=
  mkAttitude { roll : pyfloat; pitch : pyfloat; yaw : pyfloat }.
Record GpsLocationChanged : Type :=
  mkGps { latitude : pyfloat; longitude : pyfloat; altitude : pyfloat }.
Record SpeedChanged : Type :=
  mkSpeed { speedX : pyfloat; speedY : pyfloat; speedZ : pyfloat }.

(** [self.mqtt_broker] *)
Record broker : Type := mkBroker {
  host : string;
  keepalive : Z;
  port : Z;
  telemetry_topic : string;
  camera_topic : string
}.

(** The calls made on [self.mqtt_client], with what [connect] returned. *)
Inductive mqtt_call : Type :=
| connect (host : string) (port : Z) (keepalive : Z) (rc : Z)
| publish (topic : string) (payload : json) (qos : Z)
| disconnect.

(** The attributes of a [position_register] that the callback uses.
    [Ts] is kept as the interval [datetime.timedelta(seconds=self.Ts)]
    that line 95 compares with, in microseconds: the conversion of the
    float [self.Ts] is the library's and its result is what the model
    holds (for [self.Ts = 1.0] it is 1000000). *)
Record position_register : Type := mkRegister {
  init_lat : pyfloat;
  init_long : pyfloat;
  last_update : datetime;
  mqtt_broker : broker;
  Ts : timedelta
}.

(** [__init__]: [now] is [datetime.datetime.now()] at line 26, [gps] the
    GPS state of the drone, [b] and [ts] come from the environment
    variables; [keepalive] is 60. *)
Definition init (gps : GpsLocationChanged) (now : datetime)
    (b_host : string) (b_port : Z) (b_telemetry b_camera : string) (ts : timedelta)
  : position_register :=
  mkRegister (latitude gps) (longitude gps) now
    (mkBroker b_host 60 b_port b_telemetry b_camera) ts.

(** What one invocation of the callback reads from outside: the
    successive readings of [datetime.datetime.now()] (lines 64, 77, 94
    and 98), the results of the [get_state] calls and the return codes
    of the two [mqtt_client.connect] calls. *)
Record env : Type := mkEnv {
  now64 : datetime;
  now77 : datetime;
  now94 : datetime;
  now98 : datetime;
  get_attitude : res AttitudeChanged;
  get_gps : res GpsLocationChanged;
  get_speed : res SpeedChanged;
  get_camera : res pydict;
  rc_telemetry : Z;
  rc_camera : Z
}.

(** The state threaded through the callback: the object and the calls
    made so far on its MQTT client. *)
Definition world : Type := (position_register * list mqtt_call)%type.

Definition self : M world position_register := fun w => (Ret (fst w), w).
Definition call (c : mqtt_call) : M world unit :=
  modify (fun w : world => (fst w, snd w ++ [c])).
Definition set_last_update (t : datetime) : M world unit :=
  modify (fun w : world =>
    (mkRegister (init_lat (fst w)) (init_long (fst w)) t
       (mqtt_broker (fst w)) (Ts (fst w)), snd w)).

Local Open Scope py_scope.

(** [mqtt_publisher], lines 108-121; [rc] is what [connect] returns. *)
Definition mqtt_publisher (rc : Z) (event_message : pydict) (topic : string)
  : M world unit :=
  s <- self ;;
  call (connect (host (mqtt_broker s)) (port (mqtt_broker s))
          (keepalive (mqtt_broker s)) rc) ;;;
  if negb (rc =? 0) then
    raise (TypeError "[drone_utils] Could not connect to the MQTT broker!")
  else
    let payload := json_dumps event_message in
    call (publish topic payload 1) ;;;
    call disconnect.

(** The [try: ... except: ...] of lines 72-75. *)
Definition camera_or_default (r : res pydict) : pydict :=
  match r with
  | Ret d => d
  | Raise _ => mkDict dict [("zoom", VStr EmptyString); ("active", VBool false)]
  end.

(** [onEventChanged], lines 58-98. *)
Definition onEventChanged (e : env) : M world unit :=
  s <- self ;;
  let curr_datetime_form := strftime_YmdHMS (now64 e) in
  let last_update_form := strftime_YmdHMS (last_update s) in
  if negb (curr_datetime_form =? last_update_form) then
    att_dict <- lift (get_attitude e) ;;
    pos_dict <- lift (get_gps e) ;;
    speed_dict <- lift (get_speed e) ;;
    let camera_dict := camera_or_default (get_camera e) in
    let time := now77 e in
    active <- lift (getitem camera_dict "active") ;;
    let event_message := mkDict dict
      [("time", VDatetime time);
       ("latitude", VFloat (latitude pos_dict));
       ("longitude", VFloat (longitude pos_dict));
       ("altitude", VFloat (altitude pos_dict));
       ("roll", VFloat (np_round (roll att_dict) 4));
       ("pitch", VFloat (np_round (pitch att_dict) 4));
       ("yaw", VFloat (np_round (yaw att_dict) 4));
       ("speedX", VFloat (np_round (speedX speed_dict) 4));
       ("speedY", VFloat (np_round (speedY speed_dict) 4));
       ("speedZ", VFloat (np_round (speedZ speed_dict) 4));
       ("camera_status", active)] in
    let camera_dict := update camera_dict "time" (VDatetime time) in
    camera_dict <- lift (move_to_end camera_dict "time" false) ;;
    let delta_t := now94 e - last_update s in
    if Ts s <=? delta_t then
      mqtt_publisher (rc_telemetry e) event_message (telemetry_topic (mqtt_broker s)) ;;;
      mqtt_publisher (rc_camera e) camera_dict (camera_topic (mqtt_broker s)) ;;;
      set_last_update (now98 e)
    else ret tt
  else ret tt.

(** One invocation of the callback on the object [s]: what it returns or
    raises, the object afterwards and the MQTT calls it made. *)
Record step : Type := mkStep {
  input : env;
  before : position_register;
  outcome : res unit;
  after : position_register;
  calls : list mqtt_call
}.

Definition invoke (e : env) (s : position_register) : step :=
  let r := onEventChanged e (s, []) in
  mkStep e s (fst r) (fst (snd r)) (snd (snd r)).

(** The listener receives the events one after the other; an exception
    leaves the callback with the object as it is at that point. *)
Fixpoint listen (es : list env) (s : position_register) : list step :=
  match es with
  | [] => []
  | e :: rest => let st := invoke e s in st :: listen rest (after st)
  end.

Definition is_publish (c : mqtt_call) : bool :=
  match c with publish _ _ _ => true | _ => false end.

(** The messages a step sent: topic and payload, in order. *)
Fixpoint messages (l : list mqtt_call) : list (string * json) :=
  match l with
  | [] => []
  | publish t p _ :: rest => (t, p) :: messages rest
  | _ :: rest => messages rest
  end.

(** A step sent something. *)
Definition sent (st : step) : bool := existsb is_publish (calls st).

(** A step went through the whole of lines 96-98. *)
Definition published (st : step) : bool :=
  returned (outcome st) && sent st.

Local Close Scope py_scope.

(** The object with [last_update] replaced. *)
Definition with_last_update (s : position_register) (t : datetime)
  : position_register :=
  mkRegister (init_lat s) (init_long s) t (mqtt_broker s) (Ts s).

Definition connect_error : exn :=
  TypeError "[drone_utils] Could not connect to the MQTT broker!".

(** The two gates of lines 66 and 95. *)
Definition second_changed (e : env) (s : position_register) : Prop :=
  strftime_YmdHMS (now64 e) <> strftime_YmdHMS (last_update s).
Definition interval_elapsed (e : env) (s : position_register) : Prop :=
  Ts s <= now94 e - last_update s.

(** What an invocation can do, by cases on how far it gets. *)
Inductive callback_run (e : env) (s : position_register) : step -> Prop :=
| run_quiet (r : res unit) :
    callback_run e s (mkStep e s r s [])
| run_telemetry_refused :
    second_changed e s -> interval_elapsed e s -> rc_telemetry e <> 0 ->
    callback_run e s
      (mkStep e s (Raise connect_error) s
         [connect (host (mqtt_broker s)) (port (mqtt_broker s))
            (keepalive (mqtt_broker s)) (rc_telemetry e)])
| run_camera_refused (m : pydict) :
    second_changed e s -> interval_elapsed e s ->
    rc_telemetry e = 0 -> rc_camera e <> 0 ->
    callback_run e s
      (mkStep e s (Raise connect_error) s
         [connect (host (mqtt_broker s)) (port (mqtt_broker s))
            (keepalive (mqtt_broker s)) (rc_telemetry e);
          publish (telemetry_topic (mqtt_broker s)) (json_dumps m) 1;
          disconnect;
          connect (host (mqtt_broker s)) (port (mqtt_broker s))
            (keepalive (mqtt_broker s)) (rc_camera e)])
| run_published (m c : pydict) :
    second_changed e s -> interval_elapsed e s ->
    rc_telemetry e = 0 -> rc_camera e = 0 ->
    callback_run e s
      (mkStep e s (Ret tt) (with_last_update s (now98 e))
         [connect (host (mqtt_broker s)) (port (mqtt_broker s))
            (keepalive (mqtt_broker s)) (rc_telemetry e);
          publish (telemetry_topic (mqtt_broker s)) (json_dumps m) 1;
          disconnect;
          connect (host (mqtt_broker s)) (port (mqtt_broker s))
            (keepalive (mqtt_broker s)) (rc_camera e);
          publish (camera_topic (mqtt_broker s)) (json_dumps c) 1;
          disconnect]).

(** The object after a list of steps, and what it means for a list of
    steps to be a run of the callback from the object [s]. *)
Fixpoint final (s : position_register) (l : list step) : position_register :=
  match l with
  | [] => s
  | st :: rest => final (after st) rest
  end.

Fixpoint chained (s : position_register) (l : list step) : Prop :=
  match l with
  | [] => True
  | st :: rest => st = invoke (input st) s /\ chained (after st) rest
  end.



(** The telemetry sample of lines 77-87. *)
Definition telemetry_sample (time : datetime) (pos : GpsLocationChanged)
    (att : AttitudeChanged) (spd : SpeedChanged) (active : value) : pydict :=
  mkDict dict
    [("time", VDatetime time);
     ("latitude", VFloat (latitude pos));
     ("longitude", VFloat (longitude pos));
     ("altitude", VFloat (altitude pos));
     ("roll", VFloat (np_round (roll att) 4));
     ("pitch", VFloat (np_round (pitch att) 4));
     ("yaw", VFloat (np_round (yaw att) 4));
     ("speedX", VFloat (np_round (speedX spd) 4));
     ("speedY", VFloat (np_round (speedY spd) 4));
     ("speedZ", VFloat (np_round (speedZ spd) 4));
     ("camera_status", active)].

(** Sample inputs: a camera state, an event at the instant [t], a
    sampler constructed at the instant [t0] with [Ts] = 1 second, and
    the events at the instants 0.0 s, 0.5 s and 1.2 s. *)
Definition sample_camera : pydict :=
  mkDict OrderedDict [("zoom", VStr "1.0"); ("active", VBool true)].

Definition sample_event (t : datetime) (camera : res pydict) (rc1 rc2 : Z) : env :=
  mkEnv t t t t
    (Ret (mkAttitude (Float (1 # 3)) (Float 0) (Float 0)))
    (Ret (mkGps (Float (387223 # 10000)) (Float (-91393 # 10000)) (Float 30)))
    (Ret (mkSpeed (Float 0) (Float 0) (Float 0)))
    camera rc1 rc2.

Definition sample_register (t0 : datetime) : position_register :=
  init (mkGps (Float (387223 # 10000)) (Float (-91393 # 10000)) (Float 30)) t0
    "broker" 1883 "telemetry" "camera" 1000000.


(** The events 1.20 s, 1.21 s and 1.22 s after the construction, the
    broker refusing each time the connection for the camera snapshot. *)
Definition refused_camera_trace : list env :=
  [sample_event 1200000 (Ret sample_camera) 0 1;
   sample_event 1210000 (Ret sample_camera) 0 1;
   sample_event 1220000 (Ret sample_camera) 0 1].

(** Three events of which the first and the last are published: 1.2 s,
    1.5 s and 2.3 s after the start. *)
Definition sample_trace_two : list env :=
  [sample_event 1200000 (Ret sample_camera) 0 0;
   sample_event 1500000 (Ret sample_camera) 0 0;
   sample_event 2300000 (Ret sample_camera) 0 0].

End Sampler.

(** ** The telemetry inbox: [queue.Queue(maxsize=50)] and
    [rtsp_processing.on_message] (rtsp_utils.py, lines 43 and 153-165) *)

Module Inbox.

(** Python's [queue.Queue]: [maxsize <= 0] means unbounded. *)
Record Queue (A : Type) : Type := mkQueue {
  maxsize : Z;
  queue : list A
}.
Arguments mkQueue {A} maxsize queue.
Arguments maxsize {A} q.
Arguments queue {A} q.

Section Ops.
Context {A : Type}.

Definition qsize (q : Queue A) : Z := Z.of_nat (List.length (queue q)).
Definition empty (q : Queue A) : bool := negb (0 <? qsize q).
Definition full (q : Queue A) : bool :=
  (0 <? maxsize q) && (maxsize q <=? qsize q).

(** [put] and [get] without a timeout block for ever when the queue
    is full, respectively empty, and nothing else touches it:
    [None] stands for that. *)
Definition put (x : A) (q : Queue A) : option (Queue A) :=
  if full q then None else Some (mkQueue (maxsize q) (queue q ++ [x])).

Definition get (q : Queue A) : option (A * Queue A) :=
  match queue q with
  | [] => None
  | x :: rest => Some (x, mkQueue (maxsize q) rest)
  end.

(** [on_message]: [payload] is the decoded [msg.payload]. *)
Definition on_message (payload : A) (q : Queue A) : option (Queue A) :=
  if negb (full q) then put payload q
  else match get q with
       | Some (_, q') => put payload q'
       | None => None
       end.

(** The broker delivers the messages one after the other. *)
Fixpoint deliver (msgs : list A) (q : Queue A) : option (Queue A) :=
  match msgs with
  | [] => Some q
  | m :: rest =>
      match on_message m q with
      | Some q' => deliver rest q'
      | None => None
      end
  end.
End Ops.

(** [self.message_queue = queue.Queue(maxsize=50)] *)
Definition message_queue (A : Type) : Queue A := mkQueue 50 [].

(** The last [n] elements of a list, in their order. *)
Definition keep_last {A : Type} (n : nat) (l : list A) : list A :=
  skipn (List.length l - n) l.

End Inbox.

(** ** Video frames and images (rtsp_utils.py)

    A frame handed over by olympe is known by its identity. What
    OpenCV and numpy compute is kept symbolic: an image is the term that
    built it, so that one can tell where a published picture comes
    from. *)

Module Video.

Definition frame : Type := nat.

Inductive dtype : Type := float64 | uint8.

Inductive ndarray : Type :=
| to_ndarray (yuv_frame : frame)
| zeros (height width channels : Z) (t : dtype)
| putText (img : ndarray) (text : string) (org : Z * Z) (scale : Q)
    (color : Z * Z * Z)
| imdecode (data : bytes)
with bytes : Type :=
| imencode_jpg (img : ndarray)
| tobytes (img : ndarray).

(** [add_text_image], lines 96-114 and 210-228. *)
Definition add_text_image (original_image : ndarray) (text : string)
    (org : Z * Z) (scale : Q) (color : Z * Z * Z) : ndarray :=
  putText original_image text org scale color.

(** The frame of the drone an image was made from, if any. *)
Fixpoint live_source (img : ndarray) : option frame :=
  match img with
  | to_ndarray f => Some f
  | zeros _ _ _ _ => None
  | putText img' _ _ _ _ => live_source img'
  | imdecode _ => None
  end.

Definition live_payload (data : bytes) : option frame :=
  match data with
  | imencode_jpg img => live_source img
  | tobytes img => live_source img
  end.

End Video.

(** ** The overlay compositor and the offline mode: [rtsp_processing]
    (rtsp_utils.py, lines 64-87 and 130-141) *)

Module Compositor.
Import Py Video.

(** What the loops do to the outside: release a frame, publish on a
    Redis channel. *)
Inductive action : Type :=
| unref (f : frame)
| redis_publish (channel : string) (data : bytes).

(** The library calls of an iteration that may raise. *)
Inductive libcall : Type := c_to_ndarray | c_putText | c_imencode | c_publish.

Definition libcall_eqb (a b : libcall) : bool :=
  match a, b with
  | c_to_ndarray, c_to_ndarray => true
  | c_putText, c_putText => true
  | c_imencode, c_imencode => true
  | c_publish, c_publish => true
  | _, _ => false
  end.

(** What one iteration of the compositor loop meets: the telemetry
    payloads [on_message] received since the previous iteration, what
    [self.frame_queue.get(timeout=0.1)] gives (a frame, or [queue.Empty]),
    what [stream_flag_event.is_set()] answers at line 73, and the first
    library call that raises, if one does. *)
Record tick : Type := mkTick {
  delivered : list string;
  got : option frame;
  is_set : bool;
  fault : option (libcall * exn)
}.

Record cworld : Type := mkWorld {
  message_queue : Inbox.Queue string;
  log : list action
}.

Definition emit (a : action) : M cworld unit :=
  modify (fun w => mkWorld (message_queue w) (log w ++ [a])).

(** A library call returning [v], unless it is the one that raises. *)
Definition attempt {A : Type} (f : option (libcall * exn)) (c : libcall) (v : A)
  : M cworld A :=
  match f with
  | Some (c', x) => if libcall_eqb c c' then raise x else ret v
  | None => ret v
  end.

Definition receive_one (q : Inbox.Queue string) (payload : string)
  : Inbox.Queue string :=
  match Inbox.on_message payload q with
  | Some q' => q'
  | None => q
  end.

Definition receive (payloads : list string) : M cworld unit :=
  modify (fun w => mkWorld (fold_left receive_one payloads (message_queue w)) (log w)).

(** Lines 77-81: the text to print and the new [last_telemetry]. *)
Definition next_telemetry (last_telemetry : string) : M cworld (string * string) :=
  fun w =>
    if negb (Inbox.empty (message_queue w)) then
      match Inbox.get (message_queue w) with
      | Some (m, q') => (Ret (m, m), mkWorld q' (log w))
      | None => (Ret (last_telemetry, last_telemetry), w)
      end
    else (Ret (last_telemetry, last_telemetry), w).

Local Open Scope py_scope.

(** Lines 73-87 but for the reading of the flag: what is done with a
    frame that was dequeued. Returns the new [last_telemetry]. *)
Definition process (t : tick) (yuv_frame : frame) (last_telemetry : string)
  : M cworld string :=
  curr_array <- attempt (fault t) c_to_ndarray (to_ndarray yuv_frame) ;;
  tl <- next_telemetry last_telemetry ;;
  let curr_telemetry := fst tl in
  let last_telemetry := snd tl in
  curr_array <- attempt (fault t) c_putText
                  (add_text_image curr_array curr_telemetry (30, 30) (1 # 4) (0, 0, 0)) ;;
  buffer <- attempt (fault t) c_imencode (imencode_jpg curr_array) ;;
  attempt (fault t) c_publish tt ;;;
  emit (redis_publish "frame_buffer" buffer) ;;;
  emit (unref yuv_frame) ;;;
  ret last_telemetry.

(** How a loop stands when the observation ends: it has left, or it is
    still going round. *)
Inductive status : Type := exited | looping.

(** The [while not offline_flag] loop of [yuv_frame_processing], one
    [tick] for each iteration. *)
Fixpoint processing_loop (ticks : list tick) (offline_flag : bool)
    (last_telemetry : string) : M cworld status :=
  if offline_flag then ret exited
  else
    match ticks with
    | [] => ret looping
    | t :: rest =>
        receive (delivered t) ;;;
        match got t with
        | None => processing_loop rest offline_flag last_telemetry
        | Some yuv_frame =>
            let offline_flag := is_set t in
            last_telemetry <- process t yuv_frame last_telemetry ;;
            processing_loop rest offline_flag last_telemetry
        end
    end.

Definition yuv_frame_processing (ticks : list tick) : M cworld status :=
  processing_loop ticks false "waiting telemetry data...".

(** [self.full_sigmund], lines 51-52, with the stream geometry of lines
    46-48. *)
Definition full_sigmund : ndarray :=
  add_text_image (zeros 720 1280 3 float64) "NO SIGNAL" (30, 30) (1 # 2)
    (255, 255, 255).

(** One iteration of the loop of [offline_mode]: the answer of
    [is_set()] and the first call that raises, if one does. *)
Record offline_tick : Type := mkOfflineTick {
  offline_is_set : bool;
  offline_fault : option (libcall * exn)
}.

Fixpoint offline_loop (ticks : list offline_tick) (offline_flag : bool)
  : M cworld status :=
  if negb offline_flag then ret exited
  else
    match ticks with
    | [] => ret looping
    | t :: rest =>
        let offline_flag := offline_is_set t in
        buffer <- attempt (offline_fault t) c_imencode (imencode_jpg full_sigmund) ;;
        attempt (offline_fault t) c_publish tt ;;;
        emit (redis_publish "frame_buffer" buffer) ;;;
        offline_loop rest offline_flag
    end.

(** [offline_mode], lines 130-141. *)
Definition offline_mode (ticks : list offline_tick) : M cworld status :=
  modify (fun w => mkWorld (Inbox.mkQueue (Inbox.maxsize (message_queue w)) []) (log w)) ;;;
  offline_loop ticks true.

Local Close Scope py_scope.

(** The payloads published on the frame channel, oldest first. *)
Fixpoint published_frames (l : list action) : list bytes :=
  match l with
  | [] => []
  | redis_publish _ data :: rest => data :: published_frames rest
  | unref _ :: rest => published_frames rest
  end.

(** How many times a frame was released. *)
Fixpoint released (f : frame) (l : list action) : nat :=
  match l with
  | [] => 0
  | unref g :: rest => (if Nat.eqb g f then 1 else 0) + released f rest
  | redis_publish _ _ :: rest => released f rest
  end.

Definition start : cworld := mkWorld (Inbox.message_queue string) [].

(** Sample ticks: frame [f] is dequeued and the flag reads [flag]; the
    same with JPEG encoding failing. *)
Definition frame_tick (f : frame) (flag : bool) : tick :=
  mkTick [] (Some f) flag None.

Definition encode_failure_tick (f : frame) : tick :=
  mkTick [] (Some f) false (Some (c_imencode, RuntimeError "imencode")).

(** What [process] publishes for frame [f] with overlay [text]. *)
Definition overlay_jpeg (f : frame) (text : string) : bytes :=
  imencode_jpg (add_text_image (to_ndarray f) text (30, 30) (1 # 4) (0, 0, 0)).

End Compositor.

(** ** The frame ingest queue: [yuv_frame_cb] and [flush_cb]
    (rtsp_utils.py, lines 60-62 and 89-94) *)

Module Ingest.
Import Video.

(** The pixel formats of [stream["vdef_format"]]. *)
Inductive vdef_format : Type := VDEF_I420 | VDEF_NV12.

Definition is_I420 (f : vdef_format) : bool :=
  match f with VDEF_I420 => true | VDEF_NV12 => false end.

(** The queue [self.frame_queue = queue.Queue()] and the reference
    count of every frame. *)
Record store : Type := mkStore {
  frame_queue : list frame;
  refcount : frame -> Z
}.

Definition bump (rc : frame -> Z) (f : frame) (d : Z) : frame -> Z :=
  fun g => if Nat.eqb g f then rc g + d else rc g.

(** [yuv_frame_cb], run alone. *)
Definition yuv_frame_cb (yuv_frame : frame) (s : store) : store :=
  mkStore (frame_queue s ++ [yuv_frame]) (bump (refcount s) yuv_frame 1).

(** The [while not self.frame_queue.empty()] loop of [flush_cb], run
    alone: one [get_nowait().unref()] for each frame held. *)
Fixpoint drain (q : list frame) (rc : frame -> Z) : frame -> Z :=
  match q with
  | [] => rc
  | f :: rest => drain rest (bump rc f (-1))
  end.

(** [flush_cb], run alone; it returns [True] in every case. *)
Definition flush_cb (format : vdef_format) (s : store) : bool * store :=
  if negb (is_I420 format) then (true, s)
  else (true, mkStore [] (drain (frame_queue s) (refcount s))).

(** *** [flush_cb] interleaved with [yuv_frame_cb]

    The operations of [queue.Queue] are atomic; the two callbacks run
    in two threads and a schedule says which thread takes the next
    step. *)

(** Where [flush_cb] stands. *)
Inductive flush_pc : Type :=
| at_format_test
| at_loop_test
| at_get
| at_unref (f : frame)
| flush_returned
| flush_raised_Empty.

Record threads : Type := mkThreads {
  shared : store;
  flushing : flush_pc;
  stream_format : vdef_format;
  (** the frame [yuv_frame_cb] has taken a reference on and not yet put *)
  enqueuing : option frame
}.

Inductive sched : Type :=
| cb_ref (yuv_frame : frame)
| cb_put
| flush_step.

Definition step (a : sched) (t : threads) : threads :=
  let s := shared t in
  match a with
  | cb_ref f =>
      match enqueuing t with
      | None => mkThreads (mkStore (frame_queue s) (bump (refcount s) f 1))
                  (flushing t) (stream_format t) (Some f)
      | Some _ => t
      end
  | cb_put =>
      match enqueuing t with
      | Some f => mkThreads (mkStore (frame_queue s ++ [f]) (refcount s))
                    (flushing t) (stream_format t) None
      | None => t
      end
  | flush_step =>
      match flushing t with
      | at_format_test =>
          mkThreads s
            (if negb (is_I420 (stream_format t)) then flush_returned else at_loop_test)
            (stream_format t) (enqueuing t)
      | at_loop_test =>
          mkThreads s
            (match frame_queue s with [] => flush_returned | _ :: _ => at_get end)
            (stream_format t) (enqueuing t)
      | at_get =>
          match frame_queue s with
          | [] => mkThreads s flush_raised_Empty (stream_format t) (enqueuing t)
          | f :: rest =>
              mkThreads (mkStore rest (refcount s)) (at_unref f)
                (stream_format t) (enqueuing t)
          end
      | at_unref f =>
          mkThreads (mkStore (frame_queue s) (bump (refcount s) f (-1)))
            at_loop_test (stream_format t) (enqueuing t)
      | flush_returned => t
      | flush_raised_Empty => t
      end
  end.

Definition run (l : list sched) (t : threads) : threads :=
  fold_left (fun t a => step a t) l t.

(** [flush_cb(stream)] is called on the store [s]. *)
Definition flush_called (format : vdef_format) (s : store) : threads :=
  mkThreads s at_format_test format None.

(** The references held on [f]: by the queue, by the enqueuing callback
    and by the flushing one. *)
Definition held_in_queue (f : frame) (q : list frame) : Z :=
  Z.of_nat (count_occ Nat.eq_dec q f).

Definition held_by_threads (f : frame) (t : threads) : Z :=
  (match enqueuing t with
   | Some g => if Nat.eqb g f then 1 else 0
   | None => 0
   end)
  + (match flushing t with
     | at_unref g => if Nat.eqb g f then 1 else 0
     | _ => 0
     end).

(** The count of [f] before the frames now held were enqueued. *)
Definition baseline (s : store) (f : frame) : Z :=
  refcount s f - held_in_queue f (frame_queue s).

(** Reference counting is conserved: the count of every frame is its
    base count plus the references held by the queue and the threads;
    and [get_nowait] is only reached with a frame in the queue. *)
Definition conserved (base : frame -> Z) (t : threads) : Prop :=
  forall f, refcount (shared t) f
            = base f + held_in_queue f (frame_queue (shared t)) + held_by_threads f t.

Definition get_is_safe (t : threads) : Prop :=
  flushing t <> flush_raised_Empty
  /\ (flushing t = at_get -> frame_queue (shared t) <> []).

(** The frames are enqueued one after the other. *)
Definition enqueue_all (fs : list frame) (s : store) : store :=
  fold_left (fun s f => yuv_frame_cb f s) fs s.

(** A sample store: frames 1 and 2 are held, every count is 1. *)
Definition sample_store : store := mkStore [1%nat; 2%nat] (fun _ => 1).

End Ingest.

(** ** The pull source: [restreaming] (rtsp_utils.py, lines 182-262) *)

Module Restream.
Import Video.

(** [url_data] *)
Record url_data : Type := mkUrl {
  ip : string;
  port : string;
  name : string;
  stream_width : Z;
  stream_height : Z;
  stream_fps : Z
}.

Definition Gst_SECOND : Z := 1000000000.

(** A [Gst.Buffer] as pushed to the source element; [duration], [pts]
    and [dts] are unsigned 64-bit fields counting nanoseconds. *)
Record buffer : Type := mkBuffer {
  data : bytes;
  duration : Z;
  pts : Z;
  dts : Z
}.

Record restreaming : Type := mkRestreaming {
  url : url_data;
  number_frames : Z;
  frame : option ndarray;
  offline_frame : ndarray
}.

(** [__init__], lines 183-208. *)
Definition init (u : url_data) : restreaming :=
  let full_sigmund := zeros (stream_height u) (stream_width u) 3 uint8 in
  mkRestreaming u 0 None
    (add_text_image full_sigmund "NO SIGNAL" (30, 30) (1 # 2) (255, 255, 255)).

(** [buffer_callback], lines 230-238: [message_data] is
    [message['data']]. *)
Definition buffer_callback (message_data : bytes) (r : restreaming) : restreaming :=
  mkRestreaming (url r) (number_frames r) (Some (imdecode message_data))
    (offline_frame r).

(** [self.frame_subscription.get_message()]: when a message is waiting
    its handler [buffer_callback] is run. *)
Definition get_message (waiting : option bytes) (r : restreaming) : restreaming :=
  match waiting with
  | Some message_data => buffer_callback message_data r
  | None => r
  end.

(** The value stored by
    [self.frame_buffer.duration = (1 / 30) * Gst.SECOND]: the float
    33333333.33... goes into an integer field and loses its fraction. *)
Definition frame_duration : Z := Gst_SECOND / 30.

(** [on_need_data], lines 240-262. [polls] lists what the successive
    calls of [get_message] find waiting; the [while True] loop takes one
    of them at each round, and [None] is returned when the list runs out
    before the loop breaks. *)
Fixpoint on_need_data (polls : list (option bytes)) (r : restreaming)
  : option (buffer * restreaming) :=
  match polls with
  | [] => None
  | waiting :: rest =>
      let r := get_message waiting r in
      match frame r with
      | None =>
          on_need_data rest
            (mkRestreaming (url r) (number_frames r) (Some (offline_frame r))
               (offline_frame r))
      | Some fr =>
          let curr_frame := tobytes fr in
          let duration := frame_duration in
          let timestamp := number_frames r * duration in
          Some (mkBuffer curr_frame duration timestamp timestamp,
                mkRestreaming (url r) (number_frames r + 1) (frame r) (offline_frame r))
      end
  end.

(** A sequence of pulls; each pull comes with what its calls of
    [get_message] find. The buffers pushed, oldest first. *)
Fixpoint pulls (l : list (list (option bytes))) (r : restreaming)
  : option (list buffer * restreaming) :=
  match l with
  | [] => Some ([], r)
  | polls :: rest =>
      match on_need_data polls r with
      | None => None
      | Some (b, r') =>
          match pulls rest r' with
          | None => None
          | Some (bs, r'') => Some (b :: bs, r'')
          end
      end
  end.

(** The frame duration the configuration asks for: 1/fps seconds, in
    nanoseconds. *)
Definition configured_duration (u : url_data) : Z := Gst_SECOND / stream_fps u.

(** The configuration of [spade_restream_module.py], and the same at
    25 frames per second. *)
Definition output_url_data : url_data :=
  mkUrl "0.0.0.0" "31415" "/spade_stream" 1280 720 30.

Definition url_25fps : url_data :=
  mkUrl "0.0.0.0" "31415" "/spade_stream" 1280 720 25.

(** The timestamps [n * d], [(n+1) * d], ... of [len] successive
    buffers, for a frame duration [d]. *)
Fixpoint stamps (d : Z) (n : Z) (len : nat) : list Z :=
  match len with
  | O => []
  | S len' => n * d :: stamps d (n + 1) len'
  end.

(** A pull whose calls of [get_message] find nothing. *)
Definition quiet (polls : list (option bytes)) : Prop :=
  Forall (fun p => p = None) polls.

(** The picture a pull shows: the message found by the first call of
    [get_message], else the cached frame, else (empty cache) the
    message found by the second call, else the placeholder. *)
Definition shown (p1 p2 : option bytes) (r : restreaming) : ndarray :=
  match p1, frame r, p2 with
  | Some m, _, _ => imdecode m
  | None, Some fr, _ => fr
  | None, None, Some m => imdecode m
  | None, None, None => offline_frame r
  end.

End Restream.

(** ** The inbox between its writer and its reader

    [on_message] writes the inbox from the MQTT thread (rtsp_utils.py,
    lines 161-165) and the compositor reads it (lines 77-78). Each call
    on the queue is atomic; the calls of the two threads interleave, and
    a [turn] says which thread makes its next call. *)

Module InboxUse.
Import Inbox.

Section Use.
Context {A : Type}.

(** Where [on_message] stands: between two messages; holding the
    payload [m] before the [get()] of line 164 (the inbox was found
    full); or holding it before its [put]. *)
Inductive writer_pc : Type :=
| w_idle
| w_get (m : A)
| w_put (m : A).

(** Where the read of the compositor stands: before the test of line
    77, or before the [get()] of line 78. *)
Inductive reader_pc : Type :=
| r_idle
| r_get.

Record inbox_state : Type := mkInbox {
  (** the messages received and not yet handed to [on_message] *)
  incoming : list A;
  writer : writer_pc;
  reader : reader_pc;
  inbox : Queue A;
  (** the messages the compositor has read, oldest first *)
  taken : list A
}.

Inductive turn : Type := writer_turn | reader_turn.

(** One call of one thread. A [get()] on an empty queue and a [put] on
    a full one wait: the thread stays where it is. *)
Definition step (who : turn) (t : inbox_state) : inbox_state :=
  match who with
  | writer_turn =>
      match writer t with
      | w_idle =>
          match incoming t with
          | [] => t
          | m :: rest =>
              mkInbox rest (if negb (full (inbox t)) then w_put m else w_get m)
                (reader t) (inbox t) (taken t)
          end
      | w_get m =>
          match get (inbox t) with
          | Some (_, q') => mkInbox (incoming t) (w_put m) (reader t) q' (taken t)
          | None => t
          end
      | w_put m =>
          match put m (inbox t) with
          | Some q' => mkInbox (incoming t) w_idle (reader t) q' (taken t)
          | None => t
          end
      end
  | reader_turn =>
      match reader t with
      | r_idle =>
          mkInbox (incoming t) (writer t)
            (if negb (empty (inbox t)) then r_get else r_idle)
            (inbox t) (taken t)
      | r_get =>
          match get (inbox t) with
          | Some (m, q') =>
              mkInbox (incoming t) (writer t) r_idle q' (taken t ++ [m])
          | None => t
          end
      end
  end.

Definition run (l : list turn) (t : inbox_state) : inbox_state :=
  fold_left (fun t who => step who t) l t.

(** The messages [all] have been received, none is handled yet. *)
Definition start (all : list A) : inbox_state :=
  mkInbox all w_idle r_idle (message_queue A) [].

(** The payload [on_message] holds. *)
Definition in_hand (w : writer_pc) : list A :=
  match w with
  | w_idle => []
  | w_get m => [m]
  | w_put m => [m]
  end.

(** What the compositor has read and what the inbox and the two
    threads hold, oldest first. *)
Definition held (t : inbox_state) : list A :=
  taken t ++ queue (inbox t) ++ in_hand (writer t) ++ incoming t.

(** The inbox keeps its capacity of 50 and holds no more. *)
Definition bounded (t : inbox_state) : Prop :=
  maxsize (inbox t) = 50 /\ (List.length (queue (inbox t)) <= 50)%nat.

(** The compositor reads [n] times: test and [get()]. *)
Fixpoint reads (n : nat) : list turn :=
  match n with
  | O => []
  | S n' => reader_turn :: reader_turn :: reads n'
  end.

(** [l1] is [l2] with some elements left out, the order kept. *)
Inductive subseq : list A -> list A -> Prop :=
| subseq_nil : subseq [] []
| subseq_skip (x : A) (l1 l2 : list A) : subseq l1 l2 -> subseq l1 (x :: l2)
| subseq_keep (x : A) (l1 l2 : list A) : subseq l1 l2 -> subseq (x :: l1) (x :: l2).

End Use.

End InboxUse.

(** ** Runs of the compositor and of the offline mode *)

Module CompositorRuns.
Import Video Compositor.

(** The frames the compositor loop handles: those dequeued, up to and
    with the first one dequeued while the flag reads set. *)
Fixpoint handled (ticks : list tick) : list frame :=
  match ticks with
  | [] => []
  | t :: rest =>
      match got t with
      | None => handled rest
      | Some f => if is_set t then [f] else f :: handled rest
      end
  end.

(** Whether some tick dequeues a frame while the flag reads set. *)
Fixpoint flagged (ticks : list tick) : bool :=
  match ticks with
  | [] => false
  | t :: rest =>
      match got t with
      | None => flagged rest
      | Some _ => is_set t || flagged rest
      end
  end.

(** The overlay texts of [n] successive frames when the inbox holds
    [msgs] and nothing more arrives: one message for each frame, and
    the last text again once the inbox is empty. *)
Fixpoint overlay_texts (msgs : list string) (last : string) (n : nat)
  : list string :=
  match n with
  | O => []
  | S n' =>
      match msgs with
      | [] => last :: overlay_texts [] last n'
      | m :: rest => m :: overlay_texts rest m n'
      end
  end.

(** The rounds of the offline loop: up to and with the first one in
    which the flag reads clear. *)
Fixpoint offline_rounds (ticks : list offline_tick) : nat :=
  match ticks with
  | [] => O
  | t :: rest => if offline_is_set t then S (offline_rounds rest) else 1%nat
  end.

Fixpoint flag_cleared (ticks : list offline_tick) : bool :=
  match ticks with
  | [] => false
  | t :: rest => negb (offline_is_set t) || flag_cleared rest
  end.

End CompositorRuns.

(** ** The frame queue between its three threads

    Besides [yuv_frame_cb] and [flush_cb], the compositor loop takes
    frames off the same queue ([frame_queue.get], line 69) and releases
    them (line 87). *)

Module Pipeline.
Import Video Ingest.

Record threads3 : Type := mkThreads3 {
  others : threads;
  (** the frame the compositor has dequeued and not yet released *)
  composing : option frame
}.

Inductive sched3 : Type :=
| other (a : sched)
| compositor_get
| compositor_unref.

Definition step3 (a : sched3) (t : threads3) : threads3 :=
  match a with
  | other a' => mkThreads3 (step a' (others t)) (composing t)
  | compositor_get =>
      match composing t, frame_queue (shared (others t)) with
      | None, f :: rest =>
          mkThreads3
            (mkThreads (mkStore rest (refcount (shared (others t))))
               (flushing (others t)) (stream_format (others t))
               (enqueuing (others t)))
            (Some f)
      | _, _ => t
      end
  | compositor_unref =>
      match composing t with
      | Some f =>
          mkThreads3
            (mkThreads
               (mkStore (frame_queue (shared (others t)))
                  (bump (refcount (shared (others t))) f (-1)))
               (flushing (others t)) (stream_format (others t))
               (enqueuing (others t)))
            None
      | None => t
      end
  end.

Definition run3 (l : list sched3) (t : threads3) : threads3 :=
  fold_left (fun t a => step3 a t) l t.

Definition held_by_compositor (f : frame) (t : threads3) : Z :=
  match composing t with
  | Some g => if Nat.eqb g f then 1 else 0
  | None => 0
  end.

(** [flush_cb(stream)] is called while the compositor holds no frame. *)
Definition flush_called3 (format : vdef_format) (s : store) : threads3 :=
  mkThreads3 (flush_called format s) None.

(** The compositor empties the queue, one frame at a time. *)
Fixpoint compositor_takes (n : nat) : list sched3 :=
  match n with
  | O => []
  | S n' => compositor_get :: compositor_unref :: compositor_takes n'
  end.

(** The schedule in which the compositor empties the queue between the
    emptiness test of [flush_cb] and its [get_nowait]. *)
Definition race (n : nat) : list sched3 :=
  [other flush_step; other flush_step] ++ compositor_takes n ++ [other flush_step].

(** Reference counting is conserved among the three threads. *)
Definition conserved3 (base : frame -> Z) (t : threads3) : Prop :=
  forall f, refcount (shared (others t)) f
            = base f + held_in_queue f (frame_queue (shared (others t)))
              + held_by_threads f (others t) + held_by_compositor f t.

End Pipeline.

(** ** More of the pull source: [do_configure] (rtsp_utils.py, lines
    271-278) *)

Module Reconfigure.
Import Video Restream.

(** [do_configure]: the frame counter starts again; the cache is not
    touched. *)
Definition do_configure (r : restreaming) : restreaming :=
  mkRestreaming (url r) 0 (frame r) (offline_frame r).

(** What a pull finds when one relay message is waiting: the message at
    the first call of [get_message]. *)
Definition with_message (m : bytes) : list (option bytes) := [Some m; None].

End Reconfigure.

(** ** [data_acquisition.begin_register] (drone_utils.py, lines
    146-160) *)

Module Acquisition.
Import Py.

Inductive action : Type :=
| subscribe
| drone_disconnect.

Definition disconnect_error : exn :=
  TypeError "[drone_utils] Disconnection to the drone failed!".

(** The [while True] loop: [flags] are the successive answers of
    [flight_flag_event.is_set()], [disconnected] is what
    [self.mission_data.drone.disconnect()] returns. The result is [None]
    when the answers run out with the loop still going round. *)
Fixpoint register_loop (flags : list bool) (disconnected : bool)
  : option (res unit) * list action :=
  match flags with
  | [] => (None, [])
  | offline_flag :: rest =>
      if offline_flag then
        if disconnected then (Some (Ret tt), [drone_disconnect])
        else (Some (Raise disconnect_error), [drone_disconnect])
      else register_loop rest disconnected
  end.

Definition begin_register (flags : list bool) (disconnected : bool)
  : option (res unit) * list action :=
  let r := register_loop flags disconnected in
  (fst r, subscribe :: snd r).

End Acquisition.

(** * Properties *)

Module HaversineFacts.
Import Haversine.
Local Open Scope R_scope.

Lemma deg2rad_diff_self (x : R) : deg2rad x - deg2rad x = 0.
Proof. lra. Qed.

Lemma root_part_at_origin (c : R) : (sin (0 / 2)) ^ 2 + c * (sin (0 / 2)) ^ 2 = 0.
Proof.
  replace (0 / 2) with 0 by lra.
  rewrite sin_0. lra.
Qed.

(** C9: the distance from the stored initial position to itself is 0,
    and the value computed in general is the haversine formula
    2·R·asin(√(sin²(Δlat/2) + cos(lat₀)·cos(lat)·sin²(Δlong/2)))·1000
    with R = 6371. *)
Theorem haversine_zero_and_formula :
  (forall lat long : R, haversine lat long lat long = 0)
  /\ (forall lat0 long0 lat long : R,
        haversine lat0 long0 lat long = haversine_formula 6371 lat0 long0 lat long).
Proof.
  split.
  - intros lat long. unfold haversine.
    rewrite !deg2rad_diff_self.
    replace ((sin (0 / 2)) ^ 2 + cos (deg2rad lat) * cos (deg2rad lat) * (sin (0 / 2)) ^ 2)
      with 0.
    + rewrite sqrt_0, asin_0. lra.
    + symmetry. rewrite Rmult_assoc.
      replace (cos (deg2rad lat) * (cos (deg2rad lat) * sin (0 / 2) ^ 2))
        with ((cos (deg2rad lat) * cos (deg2rad lat)) * sin (0 / 2) ^ 2) by ring.
      apply root_part_at_origin.
  - intros lat0 long0 lat long. unfold haversine, haversine_formula.
    unfold Rsqr. simpl pow. rewrite !Rmult_1_r. reflexivity.
Qed.

End HaversineFacts.

(** ** The telemetry sampler *)

Module SamplerFacts.
Import Py Sampler.

Lemma mqtt_publisher_run (rc : Z) (m : pydict) (t : string) (w : world) :
  mqtt_publisher rc m t w =
    let b := mqtt_broker (fst w) in
    if rc =? 0 then
      (Ret tt, (fst w, snd w ++ [connect (host b) (port b) (keepalive b) rc;
                                 publish t (json_dumps m) 1; disconnect]))
    else
      (Raise connect_error,
       (fst w, snd w ++ [connect (host b) (port b) (keepalive b) rc])).
Proof.
  destruct w as [s l].
  cbv [mqtt_publisher call self bind raise modify fst snd connect_error].
  destruct (rc =? 0); cbn [negb]; rewrite <- ?app_assoc; reflexivity.
Qed.

Lemma invoke_cases (e : env) (s : position_register) :
  callback_run e s (invoke e s).
Proof.
  unfold invoke, onEventChanged.
  cbv [bind self lift ret fst snd].
  destruct (negb (strftime_YmdHMS (now64 e) =? strftime_YmdHMS (last_update s)))
    eqn:Hsec; [ | apply run_quiet ].
  apply negb_true_iff, Z.eqb_neq in Hsec.
  destruct (get_attitude e) as [att | x]; [ | apply run_quiet ].
  destruct (get_gps e) as [pos | x]; [ | apply run_quiet ].
  destruct (get_speed e) as [spd | x]; [ | apply run_quiet ].
  destruct (getitem (camera_or_default (get_camera e)) "active")
    as [active | x]; [ | apply run_quiet ].
  destruct (move_to_end _ "time" false) as [cam | x]; [ | apply run_quiet ].
  destruct (Ts s <=? now94 e - last_update s) eqn:Hts;
    [ | apply run_quiet ].
  apply Z.leb_le in Hts.
  rewrite !mqtt_publisher_run. cbn [fst snd app].
  destruct (rc_telemetry e =? 0) eqn:H1.
  - apply Z.eqb_eq in H1. rewrite mqtt_publisher_run. cbn [fst snd app].
    destruct (rc_camera e =? 0) eqn:H2.
    + apply Z.eqb_eq in H2. cbv [set_last_update modify fst snd].
      eapply run_published; eassumption.
    + apply Z.eqb_neq in H2. eapply run_camera_refused; eassumption.
  - apply Z.eqb_neq in H1. eapply run_telemetry_refused; eassumption.
Qed.

Lemma sent_gate (e : env) (s : position_register) :
  sent (invoke e s) = true -> second_changed e s /\ interval_elapsed e s.
Proof.
  destruct (invoke_cases e s); cbn; intros Hs; try discriminate; auto.
Qed.

Lemma after_invoke (e : env) (s : position_register) :
  after (invoke e s) =
    if published (invoke e s) then with_last_update s (now98 e) else s.
Proof.
  destruct (invoke_cases e s) as [r | | | ]; cbn; try reflexivity.
  destruct r; reflexivity.
Qed.

Lemma chained_listen (es : list env) (s : position_register) :
  chained s (listen es s).
Proof.
  revert s. induction es as [| e es IH]; intros s; cbn; auto.
Qed.

Lemma chained_app (s : position_register) (a b : list step) :
  chained s (a ++ b) -> chained s a /\ chained (final s a) b.
Proof.
  revert s. induction a as [| st a IH]; intros s; cbn.
  - auto.
  - intros [Hst Hrest]. destruct (IH _ Hrest). auto.
Qed.

Lemma chained_In (s : position_register) (l : list step) (st : step) :
  chained s l -> In st l -> st = invoke (input st) (before st).
Proof.
  revert s. induction l as [| x l IH]; intros s; cbn; [ tauto | ].
  intros [Hx Hrest] [-> | Hin].
  - rewrite Hx at 1. rewrite Hx at 3. reflexivity.
  - eapply IH; eassumption.
Qed.

Lemma final_unpublished (s : position_register) (l : list step) :
  chained s l -> (forall m, In m l -> published m = false) -> final s l = s.
Proof.
  revert s. induction l as [| st l IH]; intros s; cbn; [ reflexivity | ].
  intros [Hst Hrest] Hun.
  assert (Hafter : after st = s).
  { rewrite Hst, after_invoke. rewrite <- Hst. rewrite (Hun st); auto. }
  rewrite Hafter in *. apply IH; auto.
Qed.

Lemma Ts_final (s : position_register) (l : list step) :
  chained s l -> Ts (final s l) = Ts s.
Proof.
  revert s. induction l as [| st l IH]; intros s; cbn; [ reflexivity | ].
  intros [Hst Hrest]. rewrite (IH _ Hrest).
  rewrite Hst, after_invoke. destruct (published _); reflexivity.
Qed.

Lemma sent_is_published (e : env) (s : position_register) :
  rc_camera e = 0 -> sent (invoke e s) = published (invoke e s).
Proof.
  intros Hrc. unfold published.
  destruct (invoke_cases e s) as [r | | m Hsec Hint H1 H2 | ]; cbn;
    try reflexivity.
  - rewrite andb_false_r. reflexivity.
  - contradiction.
Qed.

Lemma listen_input_In (es : list env) (s : position_register) (st : step) :
  In st (listen es s) -> In (input st) es.
Proof.
  revert s. induction es as [| e es IH]; intros s; cbn; [ tauto | ].
  intros [<- | Hin]; [ left; reflexivity | right; eapply IH; exact Hin ].
Qed.

(** C1, as the code has it. In every run of the callback over a
    sequence of events: a step sends a message only if the second of its
    timestamp differs from the second of [last_update] and at least
    [timedelta(seconds=Ts)] has elapsed since [last_update]; [last_update]
    changes only in a step that went through the whole publication, and
    then to the reading taken after it; so from a completed publication
    to the next message sent at least that interval elapses; and when the
    broker never refuses the connection for the camera snapshot, any two
    successive steps that send are that far apart. *)
Theorem sampler_gate_and_spacing (s : position_register) (es : list env) :
  (forall st, In st (listen es s) -> sent st = true ->
     second_changed (input st) (before st)
     /\ interval_elapsed (input st) (before st))
  /\ (forall st, In st (listen es s) ->
        (published st = false /\ after st = before st)
        \/ (published st = true
            /\ after st = with_last_update (before st) (now98 (input st))))
  /\ (forall pre st1 mid st2 post,
        listen es s = pre ++ st1 :: mid ++ st2 :: post ->
        published st1 = true ->
        (forall m, In m mid -> published m = false) ->
        sent st2 = true ->
        Ts s <= now94 (input st2) - now98 (input st1))
  /\ ((forall e, In e es -> rc_camera e = 0) ->
      forall pre st1 mid st2 post,
        listen es s = pre ++ st1 :: mid ++ st2 :: post ->
        sent st1 = true ->
        (forall m, In m mid -> sent m = false) ->
        sent st2 = true ->
        Ts s <= now94 (input st2) - now98 (input st1)).
Proof.
  pose proof (chained_listen es s) as Hrun.
  assert (Hspacing : forall pre st1 mid st2 post,
            listen es s = pre ++ st1 :: mid ++ st2 :: post ->
            published st1 = true ->
            (forall m, In m mid -> published m = false) ->
            sent st2 = true ->
            Ts s <= now94 (input st2) - now98 (input st1)).
  { intros pre st1 mid st2 post Hl Hp1 Hmid Hs2.
    rewrite Hl in Hrun.
    apply chained_app in Hrun as [Hpre Hrun].
    pose proof (Ts_final _ _ Hpre) as HTs.
    cbn [chained] in Hrun. destruct Hrun as [H1 Hrun].
    apply chained_app in Hrun as [Hm Hrun].
    rewrite (final_unpublished _ _ Hm Hmid) in Hrun.
    cbn [chained] in Hrun. destruct Hrun as [H2 _].
    assert (Ha1 : after st1 = with_last_update (final s pre) (now98 (input st1))).
    { rewrite H1, after_invoke. rewrite <- H1, Hp1. reflexivity. }
    rewrite H2 in Hs2. apply sent_gate in Hs2 as [_ Hint].
    unfold interval_elapsed in Hint. rewrite Ha1 in Hint. cbn in Hint.
    rewrite HTs in Hint. exact Hint. }
  split; [ | split; [ | split ] ].
  - intros st Hin Hsent.
    rewrite (chained_In _ _ _ Hrun Hin) in Hsent.
    apply sent_gate; assumption.
  - intros st Hin.
    pose proof (chained_In _ _ _ Hrun Hin) as Hst.
    pose proof (after_invoke (input st) (before st)) as Ha.
    rewrite <- Hst in Ha.
    destruct (published st); [ right | left ]; auto.
  - exact Hspacing.
  - intros Hrc pre st1 mid st2 post Hl Hs1 Hmid Hs2.
    assert (Heq : forall st, In st (listen es s) -> sent st = published st).
    { intros st Hin. rewrite (chained_In _ _ _ Hrun Hin).
      apply sent_is_published. apply Hrc. eapply listen_input_In. exact Hin. }
    apply (Hspacing pre st1 mid st2 post Hl).
    + rewrite <- Heq; [ exact Hs1 | ].
      rewrite Hl. apply in_or_app. right. left. reflexivity.
    + intros m Hm. rewrite <- Heq; [ apply Hmid; exact Hm | ].
      rewrite Hl. apply in_or_app. right. right.
      apply in_or_app. left. exact Hm.
    + exact Hs2.
Qed.

Lemma sampler_gate_and_spacing_witness :
  map published (listen sample_trace_two (sample_register 0)) = [true; false; true]
  /\ Ts (sample_register 0) <= 2300000 - 1200000.
Proof.
  split; [ reflexivity | ].
  pose (s0 := sample_register 0).
  pose (s1 := with_last_update s0 1200000).
  apply (proj2 (proj2 (proj2 (sampler_gate_and_spacing s0 sample_trace_two)))
           ltac:(intros e [<- | [<- | [<- | []]]]; reflexivity)
           []
           (invoke (sample_event 1200000 (Ret sample_camera) 0 0) s0)
           [invoke (sample_event 1500000 (Ret sample_camera) 0 0) s1]
           (invoke (sample_event 2300000 (Ret sample_camera) 0 0) s1)
           []).
  - reflexivity.
  - reflexivity.
  - intros m [<- | []]. reflexivity.
  - reflexivity.
Defined.

(** C1, as stated, fails: the broker refuses the connection for the
    camera snapshot, so each callback sends its telemetry sample and is
    left by the TypeError with [last_update] as it was; the samples of
    the events at 1.20 s, 1.21 s and 1.22 s all go out, 10 ms apart,
    with [Ts] = 1 s. *)
Lemma refused_camera_sends_every_event :
  map (fun st => map fst (messages (calls st)))
    (listen refused_camera_trace (sample_register 0))
  = [["telemetry"]; ["telemetry"]; ["telemetry"]]
  /\ map (fun st => now94 (input st))
       (listen refused_camera_trace (sample_register 0))
     = [1200000; 1210000; 1220000]
  /\ map (fun st => last_update (after st))
       (listen refused_camera_trace (sample_register 0))
     = [0; 0; 0]
  /\ Ts (sample_register 0) = 1000000.
Proof. repeat split. Qed.

Lemma lookup_set_item (k : string) (v : value) (l : list (string * value)) :
  lookup k (set_item k v l) = Some v.
Proof.
  induction l as [| [k' v'] l IH]; cbn.
  - rewrite String.eqb_refl. reflexivity.
  - destruct (String.eqb k' k) eqn:Hk; cbn; rewrite Hk; auto.
Qed.

(** The run of the callback when both gates are open and nothing fails:
    the two messages, each in a connection of its own, then the update
    of [last_update]. *)
Lemma invoke_publishes (e : env) (s : position_register)
    (att : AttitudeChanged) (pos : GpsLocationChanged) (spd : SpeedChanged)
    (d : pydict) (active : value) :
  second_changed e s -> interval_elapsed e s ->
  get_attitude e = Ret att -> get_gps e = Ret pos -> get_speed e = Ret spd ->
  get_camera e = Ret d -> cls d = OrderedDict ->
  lookup "active" (items d) = Some active ->
  rc_telemetry e = 0 -> rc_camera e = 0 ->
  let b := mqtt_broker s in
  let time := VDatetime (now77 e) in
  invoke e s =
    mkStep e s (Ret tt) (with_last_update s (now98 e))
      [connect (host b) (port b) (keepalive b) 0;
       publish (telemetry_topic b)
         (json_dumps (telemetry_sample (now77 e) pos att spd active)) 1;
       disconnect;
       connect (host b) (port b) (keepalive b) 0;
       publish (camera_topic b)
         (json_dumps (mkDict OrderedDict
            (("time", time) :: remove_key "time" (set_item "time" time (items d))))) 1;
       disconnect].
Proof.
  intros Hsec Hint Hatt Hpos Hspd Hcam Hcls Hact Hrc1 Hrc2 b time.
  assert (Hrun : onEventChanged e (s, []) =
    (Ret tt, (with_last_update s (now98 e),
      [connect (host b) (port b) (keepalive b) 0;
       publish (telemetry_topic b)
         (json_dumps (telemetry_sample (now77 e) pos att spd active)) 1;
       disconnect;
       connect (host b) (port b) (keepalive b) 0;
       publish (camera_topic b)
         (json_dumps (mkDict OrderedDict
            (("time", time) :: remove_key "time" (set_item "time" time (items d))))) 1;
       disconnect]))).
  { unfold onEventChanged.
    cbv [bind self lift ret fst snd].
    apply Z.eqb_neq in Hsec. rewrite Hsec. cbn [negb].
    rewrite Hatt, Hpos, Hspd, Hcam. cbn [camera_or_default].
    unfold getitem. rewrite Hact.
    unfold move_to_end, update. cbn [cls items]. rewrite Hcls.
    rewrite lookup_set_item.
    apply Z.leb_le in Hint. rewrite Hint.
    rewrite !mqtt_publisher_run. cbn [fst snd app].
    rewrite Hrc1. cbn [Z.eqb].
    rewrite mqtt_publisher_run. cbn [fst snd app].
    rewrite Hrc2. cbn [Z.eqb].
    reflexivity. }
  unfold invoke. rewrite Hrun. reflexivity.
Qed.



Lemma broker_final (s : position_register) (l : list step) :
  chained s l -> mqtt_broker (final s l) = mqtt_broker s.
Proof.
  revert s. induction l as [| st l IH]; intros s; cbn; [ reflexivity | ].
  intros [Hst Hrest]. rewrite (IH _ Hrest).
  rewrite Hst, after_invoke. destruct (published _); reflexivity.
Qed.

Lemma listen_In (es : list env) (s : position_register) (st : step) :
  In st (listen es s) ->
  callback_run (input st) (before st) st
  /\ mqtt_broker (before st) = mqtt_broker s.
Proof.
  intros Hin.
  pose proof (chained_listen es s) as Hrun.
  pose proof (chained_In _ _ _ Hrun Hin) as Hst.
  split.
  - rewrite Hst at 3. apply invoke_cases.
  - apply in_split in Hin as (pre & post & Hl).
    rewrite Hl in Hrun. apply chained_app in Hrun as [Hpre Hrun].
    cbn in Hrun. destruct Hrun as [H1 _].
    rewrite H1. cbn. apply broker_final; assumption.
Qed.

(** C10: [mqtt_publisher] makes one [connect] call for each message;
    when it returns 0 the message is published with qos 1 and the client
    disconnects, otherwise the call raises the TypeError and nothing
    else is tried. So in every step of every run the MQTT calls are: none;
    or a refused connection, the TypeError leaving the callback; or the
    telemetry message in its own connection followed by a refused
    connection and the TypeError; or the two messages, each between its
    own [connect] and [disconnect]. *)
Theorem publisher_connects_per_message :
  (forall (rc : Z) (m : pydict) (t : string) (w : world),
     let b := mqtt_broker (fst w) in
     mqtt_publisher rc m t w =
       if rc =? 0 then
         (Ret tt, (fst w, snd w ++ [connect (host b) (port b) (keepalive b) rc;
                                    publish t (json_dumps m) 1; disconnect]))
       else
         (Raise connect_error,
          (fst w, snd w ++ [connect (host b) (port b) (keepalive b) rc])))
  /\ (forall (s : position_register) (es : list env) (st : step),
        In st (listen es s) ->
        let b := mqtt_broker s in
        let conn := connect (host b) (port b) (keepalive b) in
        calls st = []
        \/ (rc_telemetry (input st) <> 0
            /\ calls st = [conn (rc_telemetry (input st))]
            /\ outcome st = Raise connect_error /\ after st = before st)
        \/ (exists m, rc_camera (input st) <> 0
            /\ calls st = [conn 0; publish (telemetry_topic b) m 1; disconnect;
                           conn (rc_camera (input st))]
            /\ outcome st = Raise connect_error /\ after st = before st)
        \/ (exists m c,
            calls st = [conn 0; publish (telemetry_topic b) m 1; disconnect;
                        conn 0; publish (camera_topic b) c 1; disconnect]
            /\ outcome st = Ret tt)).
Proof.
  split.
  - intros rc m t w. apply mqtt_publisher_run.
  - intros s es st Hin b conn.
    destruct (listen_In _ _ _ Hin) as [Hrun Hb].
    subst conn b. rewrite <- Hb.
    destruct Hrun as [r | Hsec Hint H1 | m Hsec Hint H1 H2 | m c Hsec Hint H1 H2]; cbn.
    + left. reflexivity.
    + right. left. auto.
    + right. right. left. exists (json_dumps m). rewrite H1. auto.
    + right. right. right. exists (json_dumps m), (json_dumps c).
      rewrite H1, H2. auto.
Qed.

(** C7, on the code: when [get_state] raises for the camera state, the
    default is a plain [dict], [move_to_end] raises AttributeError before
    anything is sent, and the object is unchanged. *)
Theorem camera_default_raises (e : env) (s : position_register)
    (att : AttitudeChanged) (pos : GpsLocationChanged) (spd : SpeedChanged)
    (x : exn) :
  second_changed e s ->
  get_attitude e = Ret att -> get_gps e = Ret pos -> get_speed e = Ret spd ->
  get_camera e = Raise x ->
  invoke e s =
    mkStep e s
      (Raise (AttributeError "'dict' object has no attribute 'move_to_end'"))
      s [].
Proof.
  intros Hsec Hatt Hpos Hspd Hcam.
  assert (Hrun : onEventChanged e (s, []) =
    (Raise (AttributeError "'dict' object has no attribute 'move_to_end'"),
     (s, []))).
  { unfold onEventChanged.
    cbv [bind self lift ret fst snd].
    apply Z.eqb_neq in Hsec. rewrite Hsec. cbn [negb].
    rewrite Hatt, Hpos, Hspd, Hcam. reflexivity. }
  unfold invoke. rewrite Hrun. reflexivity.
Qed.

Lemma camera_default_raises_witness :
  invoke (sample_event 1200000 (Raise (RuntimeError "uninitialized")) 0 0)
         (sample_register 0)
  = mkStep (sample_event 1200000 (Raise (RuntimeError "uninitialized")) 0 0)
      (sample_register 0)
      (Raise (AttributeError "'dict' object has no attribute 'move_to_end'"))
      (sample_register 0) [].
Proof.
  apply (camera_default_raises _ _
           (mkAttitude (Float (1 # 3)) (Float 0) (Float 0))
           (mkGps (Float (387223 # 10000)) (Float (-91393 # 10000)) (Float 30))
           (mkSpeed (Float 0) (Float 0) (Float 0))
           (RuntimeError "uninitialized")).
  - unfold second_changed. vm_compute. discriminate.
  - reflexivity.
  - reflexivity.
  - reflexivity.
  - reflexivity.
Defined.

(** With an initialised camera state the snapshot is the second
    message, its ["time"] entry comes first and carries the timestamp of
    the telemetry sample. *)
Lemma camera_snapshot_time_first (e : env) (s : position_register)
    (att : AttitudeChanged) (pos : GpsLocationChanged) (spd : SpeedChanged)
    (d : pydict) (active : value) :
  second_changed e s -> interval_elapsed e s ->
  get_attitude e = Ret att -> get_gps e = Ret pos -> get_speed e = Ret spd ->
  get_camera e = Ret d -> cls d = OrderedDict ->
  lookup "active" (items d) = Some active ->
  rc_telemetry e = 0 -> rc_camera e = 0 ->
  exists tele rest,
    messages (calls (invoke e s)) =
      [(telemetry_topic (mqtt_broker s), ("time", JIsoformat (now77 e)) :: tele);
       (camera_topic (mqtt_broker s), ("time", JIsoformat (now77 e)) :: rest)].
Proof.
  intros. rewrite (invoke_publishes e s att pos spd d active); auto.
  cbn. eexists. eexists. reflexivity.
Qed.





End SamplerFacts.

(** ** The telemetry inbox *)

Module InboxFacts.
Import Inbox.

Section Facts.
Context {A : Type}.
Implicit Types (l msgs : list A) (q : Queue A).

Lemma keep_last_short (n : nat) l :
  (List.length l <= n)%nat -> keep_last n l = l.
Proof.
  intros Hl. unfold keep_last.
  replace (List.length l - n)%nat with 0%nat by lia. reflexivity.
Qed.

Lemma length_keep_last (n : nat) l :
  (List.length (keep_last n l) <= n)%nat.
Proof. unfold keep_last. rewrite length_skipn. lia. Qed.

Lemma keep_last_app (n : nat) l msgs :
  keep_last n (keep_last n l ++ msgs) = keep_last n (l ++ msgs).
Proof.
  unfold keep_last at 2.
  set (k := (List.length l - n)%nat).
  assert (Hk : (k <= List.length l)%nat) by (subst k; lia).
  assert (Happ : skipn k l ++ msgs = skipn k (l ++ msgs)).
  { rewrite skipn_app.
    replace (k - List.length l)%nat with 0%nat by lia. reflexivity. }
  rewrite Happ. unfold keep_last.
  rewrite skipn_skipn. f_equal.
  rewrite length_skipn, !length_app. subst k. lia.
Qed.

(** One message: it is appended, and when the inbox already holds 50
    the oldest is taken out first. [on_message] never blocks. *)
Lemma on_message_50 (m : A) l :
  (List.length l <= 50)%nat ->
  on_message m (mkQueue 50 l) = Some (mkQueue 50 (keep_last 50 (l ++ [m]))).
Proof.
  intros Hl. unfold on_message, full, put, get, qsize; cbn [maxsize queue].
  destruct (50 <=? Z.of_nat (List.length l)) eqn:Hfull; cbn.
  - apply Z.leb_le in Hfull.
    destruct l as [| x rest]; [ cbn in Hfull; lia | ].
    unfold full, qsize; cbn [maxsize queue].
    assert (Hrest : List.length rest = 49%nat) by (cbn in Hl, Hfull; lia).
    replace (50 <=? Z.of_nat (List.length rest)) with false
      by (symmetry; apply Z.leb_gt; lia).
    cbn. do 2 f_equal. unfold keep_last.
    cbn [List.length app]. rewrite length_app, Hrest. reflexivity.
  - unfold full, qsize; cbn [maxsize queue]. rewrite Hfull. cbn.
    apply Z.leb_gt in Hfull.
    rewrite keep_last_short by (rewrite length_app; cbn; lia).
    reflexivity.
Qed.

Lemma deliver_50 msgs l :
  (List.length l <= 50)%nat ->
  deliver msgs (mkQueue 50 l) = Some (mkQueue 50 (keep_last 50 (l ++ msgs))).
Proof.
  revert l. induction msgs as [| m msgs IH]; intros l Hl.
  - cbn. rewrite app_nil_r, keep_last_short by assumption. reflexivity.
  - cbn [deliver]. rewrite on_message_50 by assumption.
    rewrite IH by apply length_keep_last.
    rewrite keep_last_app, <- app_assoc. reflexivity.
Qed.

(** C8: 51 messages delivered to the empty inbox of capacity 50 leave
    the messages 2 to 51, in their order of arrival; the first is
    dropped. *)
Theorem inbox_keeps_last_50 (m1 : A) (rest : list A) :
  List.length rest = 50%nat ->
  deliver (m1 :: rest) (message_queue A) = Some (mkQueue 50 rest).
Proof.
  intros Hlen. unfold message_queue.
  rewrite deliver_50 by (cbn; lia).
  unfold keep_last. cbn [app List.length]. rewrite Hlen. reflexivity.
Qed.

End Facts.

Lemma inbox_keeps_last_50_witness :
  deliver (map Z.of_nat (seq 1 51)) (message_queue Z)
  = Some (mkQueue 50 (map Z.of_nat (seq 2 50))).
Proof.
  apply (inbox_keeps_last_50 1 (map Z.of_nat (seq 2 50))).
  reflexivity.
Defined.

End InboxFacts.

(** ** The overlay compositor and the offline mode *)

Module CompositorFacts.
Import Py Video Compositor.

Lemma processing_loop_offline (ticks : list tick) (last : string) (w : cworld) :
  processing_loop ticks true last w = (Ret exited, w).
Proof. destruct ticks; reflexivity. Qed.

(** With no failing call, [process] publishes the overlaid frame and
    then releases the frame; the text is the oldest inbox message, or
    [last_telemetry] when the inbox is empty. *)
Lemma process_success (t : tick) (f : frame) (last : string) (w : cworld) :
  fault t = None ->
  exists text q',
    process t f last w =
      (Ret text,
       mkWorld q' (log w ++ [redis_publish "frame_buffer" (overlay_jpeg f text);
                             unref f])).
Proof.
  intros Hf. unfold process. rewrite Hf.
  cbv [bind attempt ret next_telemetry emit modify fst snd].
  destruct (negb (Inbox.empty (message_queue w))).
  - destruct (Inbox.get (message_queue w)) as [[m q'] | ]; cbn [log message_queue].
    + exists m, q'. rewrite <- app_assoc. reflexivity.
    + exists last, (message_queue w). cbn [log message_queue].
      rewrite <- app_assoc. reflexivity.
  - exists last, (message_queue w). cbn [log message_queue].
    rewrite <- app_assoc. reflexivity.
Qed.

(** When a call raises, [process] is left by the exception with nothing
    released: the log is as it was. *)
Lemma process_failure (t : tick) (f : frame) (last : string) (w : cworld)
    (c : libcall) (x : exn) :
  fault t = Some (c, x) ->
  exists q', process t f last w = (Raise x, mkWorld q' (log w)).
Proof.
  intros Hf. unfold process. rewrite Hf.
  cbv [bind attempt ret raise next_telemetry emit modify fst snd].
  destruct c; cbn [libcall_eqb].
  - exists (message_queue w). destruct w; reflexivity.
  - destruct (negb (Inbox.empty (message_queue w))).
    + destruct (Inbox.get (message_queue w)) as [[m q'] | ]; cbn [log message_queue].
      * exists q'. reflexivity.
      * exists (message_queue w). destruct w; reflexivity.
    + exists (message_queue w). destruct w; reflexivity.
  - destruct (negb (Inbox.empty (message_queue w))).
    + destruct (Inbox.get (message_queue w)) as [[m q'] | ]; cbn [log message_queue].
      * exists q'. reflexivity.
      * exists (message_queue w). destruct w; reflexivity.
    + exists (message_queue w). destruct w; reflexivity.
  - destruct (negb (Inbox.empty (message_queue w))).
    + destruct (Inbox.get (message_queue w)) as [[m q'] | ]; cbn [log message_queue].
      * exists q'. reflexivity.
      * exists (message_queue w). destruct w; reflexivity.
    + exists (message_queue w). destruct w; reflexivity.
Qed.

Lemma released_app (f : frame) (a b : list action) :
  released f (a ++ b) = (released f a + released f b)%nat.
Proof.
  induction a as [| x a IH]; cbn; [ reflexivity | ].
  destruct x; rewrite IH; lia.
Qed.

(** C6, as the code has it: a dequeued frame is released exactly once
    when its iteration runs to the end, after the publication; when the
    conversion, the overlay, the JPEG encoding or the publication
    raises, the exception leaves the loop and the frame is not
    released; an iteration that times out holds no frame. *)
Theorem frame_released_on_success_only (t : tick) (rest : list tick)
    (last : string) (w : cworld) :
  let w1 := snd (receive (delivered t) w) in
  match got t with
  | None =>
      processing_loop (t :: rest) false last w = processing_loop rest false last w1
      /\ log w1 = log w
  | Some f =>
      match fault t with
      | None =>
          exists text q',
            process t f last w1 =
              (Ret text,
               mkWorld q' (log w ++ [redis_publish "frame_buffer" (overlay_jpeg f text);
                                     unref f]))
            /\ released f (log (snd (process t f last w1))) = S (released f (log w))
      | Some (c, x) =>
          exists q',
            process t f last w1 = (Raise x, mkWorld q' (log w))
            /\ processing_loop (t :: rest) false last w = (Raise x, mkWorld q' (log w))
            /\ released f (log (snd (processing_loop (t :: rest) false last w)))
               = released f (log w)
      end
  end.
Proof.
  intros w1.
  assert (Hlog : log w1 = log w) by reflexivity.
  destruct (got t) as [f | ] eqn:Hgot.
  - destruct (fault t) as [[c x] | ] eqn:Hfault.
    + destruct (process_failure t f last w1 c x Hfault) as [q' Hp].
      exists q'. rewrite Hlog in Hp.
      assert (Hloop : processing_loop (t :: rest) false last w
                      = (Raise x, mkWorld q' (log w))).
      { cbn [processing_loop]. unfold bind at 1.
        change (receive (delivered t) w) with (Ret tt, w1).
        cbv beta iota. rewrite Hgot. unfold bind. rewrite Hp. reflexivity. }
      rewrite Hloop. auto.
    + destruct (process_success t f last w1 Hfault) as (text & q' & Hp).
      exists text, q'. rewrite Hlog in Hp. rewrite Hp. split; [ reflexivity | ].
      cbn [snd log]. rewrite released_app. cbn. rewrite Nat.eqb_refl. lia.
  - split; [ | exact Hlog ].
    cbn [processing_loop]. unfold bind at 1.
    change (receive (delivered t) w) with (Ret tt, w1).
    cbv beta iota. rewrite Hgot. reflexivity.
Qed.

(** C6, as stated, fails: the JPEG encoding of the dequeued frame 7
    raises, the exception leaves the loop and frame 7 was not released. *)
Lemma encode_failure_leaks_frame :
  got (encode_failure_tick 7%nat) = Some 7%nat
  /\ fst (yuv_frame_processing [encode_failure_tick 7%nat] start)
     = Raise (RuntimeError "imencode")
  /\ released 7%nat
       (log (snd (yuv_frame_processing [encode_failure_tick 7%nat] start))) = 0%nat.
Proof. repeat split. Qed.

Lemma published_frames_app (a b : list action) :
  published_frames (a ++ b) = published_frames a ++ published_frames b.
Proof.
  induction a as [| x a IH]; cbn; [ reflexivity | ].
  destruct x; rewrite IH; reflexivity.
Qed.

(** Whatever the frame queue still delivers after the iteration that
    read the flag as set is not looked at. *)
Lemma loop_stops_after_flag (pre post : list tick) (t : tick) (f : frame)
    (flag : bool) (last : string) (w : cworld) :
  got t = Some f -> is_set t = true ->
  processing_loop (pre ++ t :: post) flag last w
  = processing_loop (pre ++ [t]) flag last w.
Proof.
  intros Hgot Hset. revert flag last w.
  induction pre as [| a pre IH]; intros flag last w.
  - destruct flag; [ reflexivity | ].
    cbn [app processing_loop]. rewrite Hgot, Hset.
    unfold bind. destruct (receive (delivered t) w) as [[[] | x] w1]; [ | reflexivity ].
    destruct (process t f last w1) as [[last' | x] w2]; [ | reflexivity ].
    rewrite !processing_loop_offline. reflexivity.
  - destruct flag; [ reflexivity | ].
    cbn [app processing_loop].
    unfold bind. destruct (receive (delivered a) w) as [[[] | x] w1]; [ | reflexivity ].
    destruct (got a) as [g | ].
    + destruct (process a g last w1) as [[last' | x] w2]; [ | reflexivity ].
      apply IH.
    + apply IH.
Qed.

(** The iteration that reads the flag as set still publishes its
    frame, and the loop is left after it. *)
Lemma flag_iteration_publishes (post : list tick) (t : tick) (f : frame)
    (w : cworld) :
  got t = Some f -> is_set t = true -> fault t = None ->
  exists text w',
    yuv_frame_processing (t :: post) w = (Ret exited, w')
    /\ published_frames (log w')
       = published_frames (log w) ++ [overlay_jpeg f text].
Proof.
  intros Hgot Hset Hfault.
  unfold yuv_frame_processing. cbn [processing_loop]. unfold bind at 1.
  set (w1 := snd (receive (delivered t) w)).
  change (receive (delivered t) w) with (Ret tt, w1).
  cbv beta iota. rewrite Hgot, Hset. unfold bind.
  destruct (process_success t f "waiting telemetry data..." w1 Hfault)
    as (text & q' & Hp).
  rewrite Hp, processing_loop_offline.
  eexists. eexists. split; [ reflexivity | ].
  cbn [log]. rewrite published_frames_app. reflexivity.
Qed.

(** The offline loop publishes the placeholder and nothing else. *)
Lemma offline_loop_placeholder (ticks : list offline_tick) (flag : bool)
    (w : cworld) :
  exists n,
    published_frames (log (snd (offline_loop ticks flag w)))
    = published_frames (log w) ++ repeat (imencode_jpg full_sigmund) n.
Proof.
  revert flag w. induction ticks as [| t ticks IH]; intros flag w.
  - exists 0%nat. destruct flag; cbn; rewrite app_nil_r; reflexivity.
  - destruct flag; [ | exists 0%nat; cbn; rewrite app_nil_r; reflexivity ].
    cbn [offline_loop negb]. unfold bind.
    destruct (attempt (offline_fault t) c_imencode (imencode_jpg full_sigmund) w)
      as [[buffer | x] w1] eqn:H1.
    + assert (Hb : buffer = imencode_jpg full_sigmund /\ w1 = w).
      { unfold attempt in H1. destruct (offline_fault t) as [[c x] | ];
          [ destruct (libcall_eqb c_imencode c) | ]; inversion H1; auto. }
      destruct Hb as [-> ->].
      destruct (attempt (offline_fault t) c_publish tt w) as [[[] | x] w2] eqn:H2.
      * assert (Hw : w2 = w).
        { unfold attempt in H2. destruct (offline_fault t) as [[c x] | ];
            [ destruct (libcall_eqb c_publish c) | ]; inversion H2; auto. }
        subst w2. cbv [emit modify].
        destruct (IH (offline_is_set t)
                    (mkWorld (message_queue w)
                       (log w ++ [redis_publish "frame_buffer" (imencode_jpg full_sigmund)])))
          as [n Hn].
        exists (S n). rewrite Hn. cbn [log].
        rewrite published_frames_app, <- app_assoc. reflexivity.
      * assert (Hw : w2 = w).
        { unfold attempt in H2. destruct (offline_fault t) as [[c y] | ];
            [ destruct (libcall_eqb c_publish c) | ]; inversion H2; auto. }
        subst w2. exists 0%nat. cbn. rewrite app_nil_r. reflexivity.
    + assert (Hw : w1 = w).
      { unfold attempt in H1. destruct (offline_fault t) as [[c y] | ];
          [ destruct (libcall_eqb c_imencode c) | ]; inversion H1; auto. }
      subst w1. exists 0%nat. cbn. rewrite app_nil_r. reflexivity.
Qed.

(** C5, as the code has it: the iteration of the compositor loop that
    reads the completion flag as set is its last one, so no frame that
    the queue holds afterwards is published by the loop (the frame of that
    iteration itself still is); and the offline mode publishes the
    placeholder image only, which comes from no frame of the drone. *)
Theorem live_frames_stop_after_flag (pre post : list tick) (t : tick)
    (f : frame) (w : cworld) :
  got t = Some f -> is_set t = true ->
  yuv_frame_processing (pre ++ t :: post) w = yuv_frame_processing (pre ++ [t]) w
  /\ (fault t = None ->
      exists text w',
        yuv_frame_processing (t :: post) w = (Ret exited, w')
        /\ published_frames (log w')
           = published_frames (log w) ++ [overlay_jpeg f text])
  /\ (forall (ticks : list offline_tick) (w' : cworld), exists n,
        published_frames (log (snd (offline_mode ticks w')))
        = published_frames (log w') ++ repeat (imencode_jpg full_sigmund) n)
  /\ live_payload (imencode_jpg full_sigmund) = None.
Proof.
  intros Hgot Hset. split; [ | split; [ | split ] ].
  - unfold yuv_frame_processing. eapply loop_stops_after_flag; eassumption.
  - intros Hfault. eapply flag_iteration_publishes; eassumption.
  - intros ticks w'. unfold offline_mode, bind, modify.
    apply (offline_loop_placeholder ticks true
             (mkWorld (Inbox.mkQueue (Inbox.maxsize (message_queue w')) []) (log w'))).
  - reflexivity.
Qed.

Lemma live_frames_stop_after_flag_witness :
  yuv_frame_processing ([] ++ frame_tick 1%nat true :: [frame_tick 2%nat true]) start
  = yuv_frame_processing ([] ++ [frame_tick 1%nat true]) start.
Proof.
  apply (live_frames_stop_after_flag [] [frame_tick 2%nat true]
           (frame_tick 1%nat true) 1%nat start).
  - reflexivity.
  - reflexivity.
Defined.

(** C5, as stated, fails: the flag is set when frame 1 is dequeued; the
    loop reads it as set and then publishes the picture of frame 1. *)
Lemma live_frame_published_after_flag :
  is_set (frame_tick 1%nat true) = true
  /\ published_frames
       (log (snd (yuv_frame_processing [frame_tick 1%nat true; frame_tick 2%nat true] start)))
     = [overlay_jpeg 1%nat "waiting telemetry data..."]
  /\ live_payload (overlay_jpeg 1%nat "waiting telemetry data...") = Some 1%nat.
Proof. repeat split. Qed.

End CompositorFacts.

(** ** The frame ingest queue *)

Module IngestFacts.
Import Video Ingest.

Lemma held_in_queue_nil (f : frame) : held_in_queue f [] = 0.
Proof. reflexivity. Qed.

Lemma held_in_queue_cons (f g : frame) (q : list frame) :
  held_in_queue f (g :: q) = (if Nat.eqb g f then 1 else 0) + held_in_queue f q.
Proof.
  unfold held_in_queue, frame in *. destruct (Nat.eqb g f) eqn:Hg.
  - apply Nat.eqb_eq in Hg. rewrite count_occ_cons_eq by assumption. lia.
  - apply Nat.eqb_neq in Hg. rewrite count_occ_cons_neq by assumption. lia.
Qed.

Lemma held_in_queue_app (f : frame) (q1 q2 : list frame) :
  held_in_queue f (q1 ++ q2) = held_in_queue f q1 + held_in_queue f q2.
Proof. unfold held_in_queue, frame in *. rewrite count_occ_app. lia. Qed.

Lemma bump_at (rc : frame -> Z) (g f : frame) (d : Z) :
  bump rc g d f = rc f + (if Nat.eqb g f then d else 0).
Proof.
  unfold bump. rewrite (Nat.eqb_sym f g). destruct (Nat.eqb g f); lia.
Qed.

(** Run alone, the loop takes one reference off for each occurrence
    of a frame in the queue. *)
Lemma drain_at (q : list frame) (rc : frame -> Z) (f : frame) :
  drain q rc f = rc f - held_in_queue f q.
Proof.
  revert rc. induction q as [| g q IH]; intros rc; cbn [drain].
  - rewrite held_in_queue_nil. lia.
  - rewrite IH, bump_at, held_in_queue_cons. destruct (Nat.eqb g f); lia.
Qed.

Lemma baseline_yuv_frame_cb (g : frame) (s : store) (f : frame) :
  baseline (yuv_frame_cb g s) f = baseline s f.
Proof.
  unfold baseline, yuv_frame_cb. cbn [refcount frame_queue].
  rewrite bump_at, held_in_queue_app, held_in_queue_cons, held_in_queue_nil.
  destruct (Nat.eqb g f); lia.
Qed.

Lemma baseline_enqueue_all (fs : list frame) (s : store) (f : frame) :
  baseline (enqueue_all fs s) f = baseline s f.
Proof.
  revert s. induction fs as [| g fs IH]; intros s; cbn; [ reflexivity | ].
  unfold enqueue_all in IH. rewrite IH. apply baseline_yuv_frame_cb.
Qed.

Lemma conserved_start (format : vdef_format) (s : store) :
  conserved (baseline s) (flush_called format s).
Proof.
  intros f. unfold baseline, held_by_threads. cbn. lia.
Qed.

Lemma conserved_step (base : frame -> Z) (a : sched) (t : threads) :
  conserved base t -> conserved base (step a t).
Proof.
  intros H f. specialize (H f).
  destruct t as [[q rc] pc fmt enq]. unfold held_by_threads in *.
  cbn [shared frame_queue refcount flushing enqueuing stream_format] in *.
  destruct a as [g | | ]; cbn [step shared frame_queue refcount flushing enqueuing].
  - destruct enq as [h | ]; cbn [shared frame_queue refcount flushing enqueuing];
      [ exact H | ].
    rewrite bump_at. destruct (Nat.eqb g f); lia.
  - destruct enq as [h | ]; cbn [shared frame_queue refcount flushing enqueuing];
      [ | exact H ].
    rewrite held_in_queue_app, held_in_queue_cons, held_in_queue_nil.
    destruct (Nat.eqb h f); lia.
  - destruct pc as [ | | | g | | ];
      cbn [shared frame_queue refcount flushing enqueuing stream_format];
      try exact H.
    + destruct (negb (is_I420 fmt)); exact H.
    + destruct q; exact H.
    + destruct q as [| g q];
        cbn [shared frame_queue refcount flushing enqueuing stream_format];
        [ exact H | ].
      rewrite held_in_queue_cons in H. destruct (Nat.eqb g f); lia.
    + rewrite bump_at. destruct (Nat.eqb g f); lia.
Qed.

Lemma get_is_safe_step (a : sched) (t : threads) :
  get_is_safe t -> get_is_safe (step a t).
Proof.
  intros [Hno Hget].
  destruct t as [[q rc] pc fmt enq].
  cbn [shared frame_queue refcount flushing enqueuing stream_format] in *.
  destruct a as [g | | ]; cbn [step shared frame_queue refcount flushing enqueuing].
  - destruct enq; split; cbn; auto.
  - destruct enq as [h | ]; split; cbn; auto.
    intros Hpc Happ. apply app_eq_nil in Happ as [_ Hn]. discriminate.
  - destruct pc as [ | | | g | | ];
      cbn [shared frame_queue refcount flushing enqueuing stream_format].
    + destruct (negb (is_I420 fmt)); split; cbn; intros; discriminate.
    + destruct q; split; cbn; intros; discriminate.
    + destruct q as [| g q]; [ exfalso; apply Hget; reflexivity | ].
      split; cbn; intros; discriminate.
    + split; cbn; intros; discriminate.
    + split; cbn; intros; discriminate.
    + exfalso. apply Hno. reflexivity.
Qed.

Lemma run_app (l1 l2 : list sched) (t : threads) :
  run (l1 ++ l2) t = run l2 (run l1 t).
Proof. unfold run. apply fold_left_app. Qed.

Lemma run_invariants (base : frame -> Z) (l : list sched) (t : threads) :
  conserved base t -> get_is_safe t ->
  conserved base (run l t) /\ get_is_safe (run l t).
Proof.
  revert t. induction l as [| a l IH]; intros t Hc Hs; cbn; [ auto | ].
  apply IH; [ apply conserved_step | apply get_is_safe_step ]; assumption.
Qed.

(** *** [flush_cb] returns *)

Lemma returned_stays (k : nat) (t : threads) :
  flushing t = flush_returned -> run (repeat flush_step k) t = t.
Proof.
  intros Hpc.
  assert (Hstep : step flush_step t = t).
  { destruct t as [s pc fmt enq]. cbn in Hpc. subst pc. reflexivity. }
  induction k as [| k IH]; [ reflexivity | ].
  change (run (repeat flush_step (S k)) t)
    with (run (repeat flush_step k) (step flush_step t)).
  rewrite Hstep. exact IH.
Qed.

Lemma run_steps_add (a b : nat) (t : threads) :
  run (repeat flush_step (a + b)) t
  = run (repeat flush_step b) (run (repeat flush_step a) t).
Proof. rewrite repeat_app. apply run_app. Qed.

Lemma loop_test_finishes (n : nat) :
  forall (q : list frame) (rc : frame -> Z) (fmt : vdef_format) (enq : option frame),
    List.length q = n ->
    let t' := run (repeat flush_step (3 * n + 1))
                (mkThreads (mkStore q rc) at_loop_test fmt enq) in
    flushing t' = flush_returned /\ frame_queue (shared t') = [].
Proof.
  induction n as [| n IH]; intros q rc fmt enq Hlen;
    destruct q as [| f q]; try discriminate.
  - cbn. auto.
  - replace (3 * S n + 1)%nat with (3 + (3 * n + 1))%nat by lia.
    rewrite run_steps_add.
    change (repeat flush_step 3) with [flush_step; flush_step; flush_step].
    cbn [run fold_left step shared flushing frame_queue refcount enqueuing
         stream_format].
    apply IH. cbn in Hlen. lia.
Qed.

Lemma flush_finishes (t : threads) :
  get_is_safe t ->
  flushing (run (repeat flush_step (3 * List.length (frame_queue (shared t)) + 2)) t)
  = flush_returned.
Proof.
  intros [Hno Hget].
  destruct t as [[q rc] pc fmt enq].
  cbn [shared frame_queue flushing] in *.
  set (n := List.length q).
  destruct pc as [ | | | g | | ].
  - replace (3 * n + 2)%nat with (1 + (3 * n + 1))%nat by lia.
    rewrite run_steps_add.
    change (repeat flush_step 1) with [flush_step].
    cbn [run fold_left step shared flushing frame_queue refcount enqueuing
         stream_format].
    destruct (negb (is_I420 fmt)).
    + rewrite returned_stays; reflexivity.
    + apply loop_test_finishes. reflexivity.
  - replace (3 * n + 2)%nat with ((3 * n + 1) + 1)%nat by lia.
    rewrite run_steps_add.
    destruct (loop_test_finishes n q rc fmt enq eq_refl) as [Hpc _].
    rewrite returned_stays; assumption.
  - destruct q as [| f q]; [ exfalso; apply Hget; reflexivity | ].
    subst n. cbn [List.length].
    replace (3 * S (List.length q) + 2)%nat
      with (2 + ((3 * List.length q + 1) + 2))%nat by lia.
    rewrite run_steps_add.
    change (repeat flush_step 2) with [flush_step; flush_step].
    cbn [run fold_left step shared flushing frame_queue refcount enqueuing
         stream_format].
    rewrite run_steps_add.
    destruct (loop_test_finishes (List.length q) q (bump rc f (-1)) fmt enq eq_refl)
      as [Hpc _].
    rewrite returned_stays; assumption.
  - replace (3 * n + 2)%nat with (1 + (3 * n + 1))%nat by lia.
    rewrite run_steps_add.
    change (repeat flush_step 1) with [flush_step].
    cbn [run fold_left step shared flushing frame_queue refcount enqueuing
         stream_format].
    apply loop_test_finishes. reflexivity.
  - rewrite returned_stays; reflexivity.
  - exfalso. apply Hno. reflexivity.
Qed.

Lemma enqueuing_flush_steps (k : nat) (t : threads) :
  enqueuing (run (repeat flush_step k) t) = enqueuing t.
Proof.
  revert t. induction k as [| k IH]; intros t; [ reflexivity | ].
  change (run (repeat flush_step (S k)) t)
    with (run (repeat flush_step k) (step flush_step t)).
  rewrite IH. destruct t as [[q rc] pc fmt enq].
  destruct pc; cbn; try reflexivity. destruct q; reflexivity.
Qed.

(** With no other thread running, the steps of [flush_cb] end in the
    store that [flush_cb] run alone gives. *)
Lemma flush_steps_alone (fmt : vdef_format) (s : store) :
  let t := run (repeat flush_step (3 * List.length (frame_queue s) + 2))
             (flush_called fmt s) in
  flushing t = flush_returned
  /\ frame_queue (shared t) = frame_queue (snd (flush_cb fmt s))
  /\ forall f, refcount (shared t) f = refcount (snd (flush_cb fmt s)) f.
Proof.
  intros t.
  assert (Hsafe0 : get_is_safe (flush_called fmt s))
    by (split; cbn; intros; discriminate).
  destruct (run_invariants (baseline s) (repeat flush_step
              (3 * List.length (frame_queue s) + 2)) _
              (conserved_start fmt s) Hsafe0) as [Hc _].
  fold t in Hc.
  assert (Henq : enqueuing t = None) by apply enqueuing_flush_steps.
  destruct fmt.
  - assert (Hend : flushing t = flush_returned /\ frame_queue (shared t) = []).
    { subst t. destruct s as [q rc]. cbn [frame_queue].
      replace (3 * List.length q + 2)%nat
        with (1 + (3 * List.length q + 1))%nat by lia.
      rewrite run_steps_add.
      change (repeat flush_step 1) with [flush_step].
      cbn [run fold_left step shared flushing frame_queue refcount enqueuing
           stream_format flush_called is_I420 negb].
      apply loop_test_finishes. reflexivity. }
    destruct Hend as [Hpc Hq].
    split; [ exact Hpc | ]. split; [ rewrite Hq; reflexivity | ].
    intros f. rewrite (Hc f). unfold held_by_threads.
    rewrite Henq, Hpc, Hq, held_in_queue_nil.
    unfold flush_cb. cbn [is_I420 negb snd refcount].
    rewrite drain_at. unfold baseline. lia.
  - assert (Ht : t = mkThreads s flush_returned VDEF_NV12 None).
    { subst t.
      replace (3 * List.length (frame_queue s) + 2)%nat
        with (1 + (3 * List.length (frame_queue s) + 1))%nat by lia.
      rewrite run_steps_add.
      change (repeat flush_step 1) with [flush_step].
      cbn [run fold_left step shared flushing frame_queue refcount enqueuing
           stream_format flush_called is_I420 negb].
      apply returned_stays. reflexivity. }
    rewrite Ht. cbn. auto.
Qed.

(** The step by which [flush_cb] returns finds the queue empty. *)
Lemma returns_on_empty_queue (t : threads) :
  stream_format t = VDEF_I420 ->
  flushing t <> flush_returned ->
  flushing (step flush_step t) = flush_returned ->
  frame_queue (shared (step flush_step t)) = [].
Proof.
  destruct t as [[q rc] pc fmt enq]. cbn [stream_format flushing].
  intros -> Hnot.
  destruct pc; cbn; try discriminate; try congruence.
  - destruct q; cbn; [ reflexivity | discriminate ].
  - destruct q; cbn; discriminate.
Qed.

Lemma stream_format_run (l : list sched) (t : threads) :
  stream_format (run l t) = stream_format t.
Proof.
  revert t. induction l as [| a l IH]; intros t; cbn; [ reflexivity | ].
  rewrite IH. destruct t as [[q rc] pc fmt enq].
  destruct a; cbn; [ destruct enq | destruct enq | destruct pc ]; try reflexivity.
  destruct q; reflexivity.
Qed.

(** C4, as the code has it. For a stream whose format is not I420
    [flush_cb] returns without touching the queue. For an I420 stream,
    run alone, it empties the queue and takes off every frame the one
    reference its enqueuing had added, which brings every count back to
    its base. Interleaved in any way with [yuv_frame_cb], the count of
    every frame stays its base count plus the references held by the
    queue and by the two callbacks (no release is lost or done twice),
    [get_nowait] never finds the queue empty, the step by which
    [flush_cb] returns sees the queue empty, and [flush_cb] returns once
    it is given enough steps. *)
Theorem flush_releases_each_frame_once (s : store) :
  flush_cb VDEF_NV12 s = (true, s)
  /\ (exists rc', flush_cb VDEF_I420 s = (true, mkStore [] rc')
                  /\ forall f, rc' f = baseline s f)
  /\ (forall (fs : list frame) (f : frame),
        frame_queue s = [] ->
        refcount (snd (flush_cb VDEF_I420 (enqueue_all fs s))) f = refcount s f)
  /\ (forall l : list sched,
        let t := run l (flush_called VDEF_I420 s) in
        (forall f, refcount (shared t) f
                   = baseline s f + held_in_queue f (frame_queue (shared t))
                     + held_by_threads f t)
        /\ flushing t <> flush_raised_Empty
        /\ (flushing t <> flush_returned ->
            flushing (step flush_step t) = flush_returned ->
            frame_queue (shared (step flush_step t)) = [])
        /\ flushing (run (repeat flush_step
                            (3 * List.length (frame_queue (shared t)) + 2)) t)
           = flush_returned).
Proof.
  split; [ reflexivity | split; [ | split ] ].
  - exists (drain (frame_queue s) (refcount s)). split; [ reflexivity | ].
    intros f. rewrite drain_at. reflexivity.
  - intros fs f Hempty. unfold flush_cb. cbn [is_I420 negb snd refcount].
    rewrite drain_at.
    change (refcount (enqueue_all fs s) f
            - held_in_queue f (frame_queue (enqueue_all fs s)))
      with (baseline (enqueue_all fs s) f).
    rewrite baseline_enqueue_all. unfold baseline.
    rewrite Hempty, held_in_queue_nil. lia.
  - intros l t.
    assert (Hsafe0 : get_is_safe (flush_called VDEF_I420 s))
      by (split; cbn; intros; discriminate).
    destruct (run_invariants (baseline s) l _ (conserved_start VDEF_I420 s) Hsafe0)
      as [Hc Hs].
    fold t in Hc, Hs.
    split; [ exact Hc | ].
    split; [ exact (proj1 Hs) | ].
    split.
    + apply returns_on_empty_queue. subst t. apply stream_format_run.
    + apply flush_finishes. exact Hs.
Qed.

(** C4, as stated, fails: for a stream in NV12 format the queue still
    holds its two frames after [flush_cb], with their references. *)
Lemma flush_skips_other_formats :
  frame_queue (snd (flush_cb VDEF_NV12 sample_store)) = [1%nat; 2%nat]
  /\ refcount (snd (flush_cb VDEF_NV12 sample_store)) 1%nat
     = refcount sample_store 1%nat
  /\ baseline sample_store 1%nat = 0.
Proof. repeat split. Qed.

End IngestFacts.

(** ** The pull source *)

Module RestreamFacts.
Import Video Restream.

Lemma frame_duration_value : frame_duration = 33333333.
Proof. reflexivity. Qed.

(** A pull ends within two rounds of its loop. *)
Lemma on_need_data_two (p1 p2 : option bytes) (rest : list (option bytes))
    (r : restreaming) :
  on_need_data (p1 :: p2 :: rest) r =
    Some (mkBuffer (tobytes (shown p1 p2 r)) frame_duration
            (number_frames r * frame_duration) (number_frames r * frame_duration),
          mkRestreaming (url r) (number_frames r + 1) (Some (shown p1 p2 r))
            (offline_frame r)).
Proof.
  destruct r as [u n fr off]. unfold shown.
  destruct p1 as [m1 | ]; cbn; [ reflexivity | ].
  destruct fr as [fr | ]; cbn; [ reflexivity | ].
  destruct p2 as [m2 | ]; reflexivity.
Qed.

(** With a frame in the cache one round is enough. *)
Lemma on_need_data_cached (p : option bytes) (rest : list (option bytes))
    (r : restreaming) (fr : ndarray) :
  frame r = Some fr ->
  on_need_data (p :: rest) r =
    let fr' := match p with Some m => imdecode m | None => fr end in
    Some (mkBuffer (tobytes fr') frame_duration
            (number_frames r * frame_duration) (number_frames r * frame_duration),
          mkRestreaming (url r) (number_frames r + 1) (Some fr') (offline_frame r)).
Proof.
  destruct r as [u n f off]. cbn [frame]. intros ->.
  destruct p as [m | ]; reflexivity.
Qed.

Lemma pulls_stamps (l : list (list (option bytes))) :
  forall r : restreaming,
    Forall (fun polls => (2 <= List.length polls)%nat) l ->
    exists bs r',
      pulls l r = Some (bs, r')
      /\ map pts bs = stamps frame_duration (number_frames r) (List.length l)
      /\ map dts bs = map pts bs
      /\ Forall (fun b => duration b = frame_duration) bs
      /\ number_frames r' = number_frames r + Z.of_nat (List.length l).
Proof.
  induction l as [| polls l IH]; intros r Hl.
  - exists [], r. cbn. repeat split; auto. lia.
  - inversion Hl as [| ? ? Hp Hrest]; subst.
    destruct polls as [| p1 [| p2 rest]]; cbn in Hp; try lia.
    cbn [pulls]. rewrite on_need_data_two.
    set (r1 := mkRestreaming (url r) (number_frames r + 1)
                 (Some (shown p1 p2 r)) (offline_frame r)).
    destruct (IH r1 Hrest) as (bs & r' & Hpulls & Hpts & Hdts & Hdur & Hn).
    rewrite Hpulls. exists (mkBuffer (tobytes (shown p1 p2 r)) frame_duration
                              (number_frames r * frame_duration)
                              (number_frames r * frame_duration) :: bs), r'.
    split; [ reflexivity | ].
    split; [ cbn [map pts List.length stamps]; rewrite Hpts; reflexivity | ].
    split; [ cbn [map pts dts]; rewrite Hdts; reflexivity | ].
    split; [ constructor; [ reflexivity | exact Hdur ] | ].
    rewrite Hn. subst r1. cbn [number_frames List.length]. lia.
Qed.

Lemma stamps_nth (d n : Z) (len k : nat) :
  (k < len)%nat -> nth k (stamps d n len) 0 = (n + Z.of_nat k) * d.
Proof.
  revert n k. induction len as [| len IH]; intros n k Hk; [ lia | ].
  destruct k as [| k]; cbn [stamps nth].
  - f_equal. lia.
  - rewrite IH by lia. f_equal. lia.
Qed.

(** Successive timestamps differ by the frame duration. *)
Lemma stamps_step (d n : Z) (len k : nat) :
  (S k < len)%nat ->
  nth (S k) (stamps d n len) 0 = nth k (stamps d n len) 0 + d.
Proof.
  intros Hk. rewrite !stamps_nth by lia. lia.
Qed.

(** Until a message arrives every pull shows the placeholder. *)
Lemma placeholder_until_first_message (u : url_data)
    (l : list (list (option bytes))) :
  Forall (fun polls => (2 <= List.length polls)%nat /\ quiet polls) l ->
  exists bs r',
    pulls l (init u) = Some (bs, r')
    /\ Forall (fun b => data b = tobytes (offline_frame (init u))) bs.
Proof.
  intros Hl.
  assert (Hgen : forall r : restreaming,
            (frame r = None \/ frame r = Some (offline_frame r)) ->
            exists bs r', pulls l r = Some (bs, r')
              /\ Forall (fun b => data b = tobytes (offline_frame r)) bs).
  { induction l as [| polls l IH]; intros r Hfr.
    - exists [], r. auto.
    - inversion Hl as [| ? ? [Hlen Hq] Hrest]; subst.
      destruct polls as [| p1 [| p2 rest]]; cbn in Hlen; try lia.
      inversion Hq as [| ? ? Hp1 Hq']; subst.
      inversion Hq' as [| ? ? Hp2 _]; subst.
      cbn [pulls]. rewrite on_need_data_two.
      assert (Hshown : shown None None r = offline_frame r).
      { unfold shown. destruct Hfr as [-> | ->]; reflexivity. }
      rewrite Hshown.
      destruct (IH Hrest (mkRestreaming (url r) (number_frames r + 1)
                            (Some (offline_frame r)) (offline_frame r)))
        as (bs & r' & Hpulls & Hall); [ right; reflexivity | ].
      rewrite Hpulls. eexists. eexists. split; [ reflexivity | ].
      constructor; [ reflexivity | exact Hall ]. }
  apply Hgen. left. reflexivity.
Qed.

(** A message that arrives is shown by the pull that finds it, and by
    every later pull until another message arrives. *)
Lemma cached_frame_repeated (m : bytes) (rest : list (option bytes))
    (r : restreaming) (l : list (list (option bytes))) :
  Forall (fun polls => (1 <= List.length polls)%nat /\ quiet polls) l ->
  exists bs r',
    pulls ((Some m :: rest) :: l) r = Some (bs, r')
    /\ Forall (fun b => data b = tobytes (imdecode m)) bs
    /\ List.length bs = S (List.length l).
Proof.
  intros Hl.
  assert (Hgen : forall r : restreaming, frame r = Some (imdecode m) ->
            exists bs r', pulls l r = Some (bs, r')
              /\ Forall (fun b => data b = tobytes (imdecode m)) bs
              /\ List.length bs = List.length l).
  { clear r. induction l as [| polls l IH]; intros r Hfr.
    - exists [], r. auto.
    - inversion Hl as [| ? ? [Hlen Hq] Hrest]; subst.
      destruct polls as [| p1 rest1]; cbn in Hlen; try lia.
      inversion Hq as [| ? ? Hp1 _]; subst.
      cbn [pulls]. rewrite (on_need_data_cached _ _ _ _ Hfr). cbv zeta.
      destruct (IH Hrest (mkRestreaming (url r) (number_frames r + 1)
                            (Some (imdecode m)) (offline_frame r)))
        as (bs & r' & Hpulls & Hall & Hn); [ reflexivity | ].
      rewrite Hpulls. eexists. eexists. split; [ reflexivity | ].
      split; [ constructor; [ reflexivity | exact Hall ] | ].
      cbn. rewrite Hn. reflexivity. }
  cbn [pulls].
  assert (H1 : on_need_data (Some m :: rest) r =
    Some (mkBuffer (tobytes (imdecode m)) frame_duration
            (number_frames r * frame_duration) (number_frames r * frame_duration),
          mkRestreaming (url r) (number_frames r + 1) (Some (imdecode m))
            (offline_frame r))).
  { destruct r; reflexivity. }
  rewrite H1.
  destruct (Hgen (mkRestreaming (url r) (number_frames r + 1) (Some (imdecode m))
                    (offline_frame r)) eq_refl)
    as (bs & r' & Hpulls & Hall & Hn).
  rewrite Hpulls. eexists. eexists. split; [ reflexivity | ].
  split; [ constructor; [ reflexivity | exact Hall ] | ].
  cbn. rewrite Hn. reflexivity.
Qed.

(** C3, on the code: every pull returns a buffer, and the timestamps of
    the successive buffers are 0, d, 2·d, ... with d the constant
    33333333 ns (1/30 s) written in [on_need_data], whatever
    [stream_fps] the source was configured with; at 25 frames per second
    the configured duration is 40000000 ns. *)
Theorem pull_timestamps_ignore_fps (u : url_data)
    (l : list (list (option bytes))) :
  Forall (fun polls => (2 <= List.length polls)%nat) l ->
  exists bs r',
    pulls l (init u) = Some (bs, r')
    /\ map pts bs = stamps 33333333 0 (List.length l)
    /\ map dts bs = map pts bs
    /\ Forall (fun b => duration b = 33333333) bs.
Proof.
  intros Hl.
  destruct (pulls_stamps l (init u) Hl) as (bs & r' & Hp & Hpts & Hdts & Hdur & _).
  exists bs, r'. rewrite <- frame_duration_value. auto.
Qed.

Lemma pull_timestamps_ignore_fps_witness :
  configured_duration url_25fps = 40000000
  /\ exists bs r',
       pulls [[None; None]; [None; None]; [None; None]] (init url_25fps)
       = Some (bs, r')
       /\ map pts bs = [0; 33333333; 66666666]
       /\ map dts bs = map pts bs
       /\ Forall (fun b => duration b = 33333333) bs.
Proof.
  split; [ reflexivity | ].
  apply (pull_timestamps_ignore_fps url_25fps
           [[None; None]; [None; None]; [None; None]]).
  repeat constructor.
Defined.

End RestreamFacts.

(** ** More on the telemetry sampler *)

Module SamplerMore.
Import Py Sampler SamplerFacts.

(** An event in the same second as [last_update] is dropped before
    anything is read: the callback returns, sends nothing and leaves the
    object as it is, whatever the state of the drone or of the broker. *)
Theorem same_second_is_ignored (e : env) (s : position_register) :
  strftime_YmdHMS (now64 e) = strftime_YmdHMS (last_update s) ->
  invoke e s = mkStep e s (Ret tt) s [].
Proof.
  intros Hsame.
  assert (Hrun : onEventChanged e (s, []) = (Ret tt, (s, []))).
  { unfold onEventChanged. cbv [bind self ret fst snd].
    apply Z.eqb_eq in Hsame. rewrite Hsame. reflexivity. }
  unfold invoke. rewrite Hrun. reflexivity.
Qed.

Lemma same_second_is_ignored_witness :
  invoke (mkEnv 999999 999999 999999 999999
            (Raise (RuntimeError "attitude")) (Raise (RuntimeError "gps"))
            (Raise (RuntimeError "speed")) (Raise (RuntimeError "camera")) 1 1)
         (sample_register 0)
  = mkStep (mkEnv 999999 999999 999999 999999
              (Raise (RuntimeError "attitude")) (Raise (RuntimeError "gps"))
              (Raise (RuntimeError "speed")) (Raise (RuntimeError "camera")) 1 1)
      (sample_register 0) (Ret tt) (sample_register 0) [].
Proof.
  apply same_second_is_ignored. reflexivity.
Defined.

(** Outside the same second, an exception of [get_state] for the
    attitude, the position or the speed leaves the callback as it is (the
    first one met, in that order), and a camera state without an
    ['active'] entry gives KeyError; in each case nothing is sent and the
    object is unchanged. Only the camera read is guarded by the
    [try]. *)
Theorem state_errors_propagate (e : env) (s : position_register) (x : exn) :
  second_changed e s ->
  (get_attitude e = Raise x -> invoke e s = mkStep e s (Raise x) s [])
  /\ (forall att, get_attitude e = Ret att -> get_gps e = Raise x ->
        invoke e s = mkStep e s (Raise x) s [])
  /\ (forall att pos, get_attitude e = Ret att -> get_gps e = Ret pos ->
        get_speed e = Raise x ->
        invoke e s = mkStep e s (Raise x) s [])
  /\ (forall att pos spd d, get_attitude e = Ret att -> get_gps e = Ret pos ->
        get_speed e = Ret spd -> get_camera e = Ret d ->
        lookup "active" (items d) = None ->
        invoke e s = mkStep e s (Raise (KeyError "active")) s []).
Proof.
  intros Hsec. apply Z.eqb_neq in Hsec.
  assert (Hgen : forall r, onEventChanged e (s, []) = (r, (s, [])) ->
                           invoke e s = mkStep e s r s []).
  { intros r Hr. unfold invoke. rewrite Hr. reflexivity. }
  repeat split; intros; apply Hgen; unfold onEventChanged;
    cbv [bind self lift ret fst snd]; rewrite Hsec; cbn [negb].
  - rewrite H. reflexivity.
  - rewrite H, H0. reflexivity.
  - rewrite H, H0, H1. reflexivity.
  - rewrite H, H0, H1, H2. cbn [camera_or_default]. unfold getitem.
    rewrite H3. reflexivity.
Qed.

Lemma state_errors_propagate_witness :
  invoke (mkEnv 1200000 1200000 1200000 1200000
            (Ret (mkAttitude (Float 0) (Float 0) (Float 0)))
            (Raise (RuntimeError "gps"))
            (Ret (mkSpeed (Float 0) (Float 0) (Float 0))) (Ret sample_camera) 0 0)
         (sample_register 0)
  = mkStep (mkEnv 1200000 1200000 1200000 1200000
              (Ret (mkAttitude (Float 0) (Float 0) (Float 0)))
            (Raise (RuntimeError "gps"))
              (Ret (mkSpeed (Float 0) (Float 0) (Float 0))) (Ret sample_camera) 0 0)
      (sample_register 0) (Raise (RuntimeError "gps")) (sample_register 0) [].
Proof.
  apply (proj1 (proj2 (state_errors_propagate
           (mkEnv 1200000 1200000 1200000 1200000
              (Ret (mkAttitude (Float 0) (Float 0) (Float 0)))
            (Raise (RuntimeError "gps"))
              (Ret (mkSpeed (Float 0) (Float 0) (Float 0))) (Ret sample_camera) 0 0)
           (sample_register 0) (RuntimeError "gps")
           ltac:(unfold second_changed; vm_compute; discriminate)))
           (mkAttitude (Float 0) (Float 0) (Float 0))).
  - reflexivity.
  - reflexivity.
Defined.

Lemma remove_key_set_item (k : string) (v : value) (l : list (string * value)) :
  remove_key k (set_item k v l) = remove_key k l.
Proof.
  induction l as [| [k' v'] l IH]; cbn.
  - rewrite String.eqb_refl. reflexivity.
  - destruct (String.eqb k' k) eqn:Hk; cbn; rewrite Hk; [ reflexivity | ].
    rewrite IH. reflexivity.
Qed.

(** What a publication sends: the telemetry sample with its eleven
    entries in the order of the source, then the camera snapshot, which
    is the timestamp of the sample followed by the entries of the camera
    state in their order, an older ['time'] entry being replaced and not
    repeated. *)
Theorem published_payloads (e : env) (s : position_register)
    (att : AttitudeChanged) (pos : GpsLocationChanged) (spd : SpeedChanged)
    (d : pydict) (active : value) :
  second_changed e s -> interval_elapsed e s ->
  get_attitude e = Ret att -> get_gps e = Ret pos -> get_speed e = Ret spd ->
  get_camera e = Ret d -> cls d = OrderedDict ->
  lookup "active" (items d) = Some active ->
  rc_telemetry e = 0 -> rc_camera e = 0 ->
  messages (calls (invoke e s)) =
    [(telemetry_topic (mqtt_broker s),
      [("time", JIsoformat (now77 e));
       ("latitude", JNumber (latitude pos));
       ("longitude", JNumber (longitude pos));
       ("altitude", JNumber (altitude pos));
       ("roll", JNumber (np_round (roll att) 4));
       ("pitch", JNumber (np_round (pitch att) 4));
       ("yaw", JNumber (np_round (yaw att) 4));
       ("speedX", JNumber (np_round (speedX spd) 4));
       ("speedY", JNumber (np_round (speedY spd) 4));
       ("speedZ", JNumber (np_round (speedZ spd) 4));
       ("camera_status", to_json active)]);
     (camera_topic (mqtt_broker s),
      ("time", JIsoformat (now77 e))
      :: json_dumps (mkDict OrderedDict (remove_key "time" (items d))))].
Proof.
  intros. rewrite (invoke_publishes e s att pos spd d active); auto.
  cbn [calls messages]. rewrite remove_key_set_item. reflexivity.
Qed.

Lemma published_payloads_witness :
  messages (calls (invoke (sample_event 1200000 (Ret sample_camera) 0 0)
                          (sample_register 0)))
  = [("telemetry",
      [("time", JIsoformat 1200000);
       ("latitude", JNumber (Float (387223 # 10000)));
       ("longitude", JNumber (Float (-91393 # 10000)));
       ("altitude", JNumber (Float 30));
       ("roll", JNumber (np_round (Float (1 # 3)) 4));
       ("pitch", JNumber (np_round (Float 0) 4));
       ("yaw", JNumber (np_round (Float 0) 4));
       ("speedX", JNumber (np_round (Float 0) 4));
       ("speedY", JNumber (np_round (Float 0) 4));
       ("speedZ", JNumber (np_round (Float 0) 4));
       ("camera_status", JBool true)]);
     ("camera",
      [("time", JIsoformat 1200000); ("zoom", JString "1.0");
       ("active", JBool true)])].
Proof.
  apply (published_payloads (sample_event 1200000 (Ret sample_camera) 0 0)
           (sample_register 0)
           (mkAttitude (Float (1 # 3)) (Float 0) (Float 0))
           (mkGps (Float (387223 # 10000)) (Float (-91393 # 10000)) (Float 30))
           (mkSpeed (Float 0) (Float 0) (Float 0))
           sample_camera (VBool true)).
  - unfold second_changed. vm_compute. discriminate.
  - unfold interval_elapsed. vm_compute. discriminate.
  - reflexivity.
  - reflexivity.
  - reflexivity.
  - reflexivity.
  - reflexivity.
  - reflexivity.
  - reflexivity.
  - reflexivity.
Defined.

Lemma filter_nil_none {A : Type} (f : A -> bool) (l : list A) :
  filter f l = [] -> forall x, In x l -> f x = false.
Proof.
  induction l as [| a l IH]; cbn; [ tauto | ].
  destruct (f a) eqn:Ha; [ discriminate | ].
  intros Hl x [<- | Hin]; auto.
Qed.

Lemma filter_sent_published (es : list env) :
  forall s : position_register,
    (forall e, In e es -> rc_camera e = 0) ->
    filter sent (listen es s) = filter published (listen es s).
Proof.
  induction es as [| e es IH]; intros s Hrc; [ reflexivity | ].
  change (listen (e :: es) s)
    with (invoke e s :: listen es (after (invoke e s))).
  cbn [filter].
  rewrite (sent_is_published e s) by (apply Hrc; left; reflexivity).
  rewrite IH by (intros e' H; apply Hrc; right; exact H).
  reflexivity.
Qed.

Lemma completed_rate (es : list env) :
  forall (s : position_register) (pre : list step) (p : step),
    (forall e, In e es -> now94 e <= now98 e) ->
    filter published (listen es s) = pre ++ [p] ->
    last_update s + Z.of_nat (S (List.length pre)) * Ts s <= now98 (input p)
    /\ last_update (final s (listen es s)) = now98 (input p).
Proof.
  induction es as [| e es IH]; intros s pre p Hclock Hf.
  - destruct pre; discriminate.
  - change (listen (e :: es) s)
      with (invoke e s :: listen es (after (invoke e s))) in *.
    cbn [filter final] in *.
    pose proof (after_invoke e s) as Hafter.
    destruct (published (invoke e s)) eqn:Hp.
    + assert (Hgate : interval_elapsed e s).
      { unfold published in Hp. apply andb_true_iff in Hp as [_ Hs].
        apply sent_gate in Hs. tauto. }
      unfold interval_elapsed in Hgate.
      pose proof (Hclock e (or_introl eq_refl)) as He.
      destruct pre as [| q pre].
      * cbn [app] in Hf. injection Hf as Hst Hrest. subst p.
        change (input (invoke e s)) with e.
        split; [ cbn [List.length]; lia | ].
        assert (Hfin : final (after (invoke e s)) (listen es (after (invoke e s)))
                       = after (invoke e s)).
        { apply final_unpublished; [ apply chained_listen | ].
          apply filter_nil_none. exact Hrest. }
        rewrite Hfin, Hafter. reflexivity.
      * cbn [app] in Hf. injection Hf as Hst Hrest.
        destruct (IH (after (invoke e s)) pre p
                    (fun e' H => Hclock e' (or_intror H)) Hrest) as [Hk Hlast].
        split; [ | exact Hlast ].
        rewrite Hafter in Hk. cbn [last_update Ts with_last_update] in Hk.
        cbn [List.length]. rewrite !Nat2Z.inj_succ in *. nia.
    + rewrite Hafter in *.
      apply IH; [ intros e' H; apply Hclock; right; exact H | exact Hf ].
Qed.

(** The rate at which samples go out. When the broker never refuses the
    connection for the camera snapshot and the clock does not go back
    between the test of line 95 and the reading of line 98, the k-th
    step of a run that sends a sample comes at least k times
    [timedelta(seconds=Ts)] after the [last_update] the run started
    with; and [last_update] ends as the reading taken after the last of
    them. *)
Theorem publication_rate (es : list env) (s : position_register)
    (pre : list step) (p : step) :
  (forall e, In e es -> now94 e <= now98 e) ->
  (forall e, In e es -> rc_camera e = 0) ->
  filter sent (listen es s) = pre ++ [p] ->
  last_update s + Z.of_nat (S (List.length pre)) * Ts s <= now98 (input p)
  /\ last_update (final s (listen es s)) = now98 (input p).
Proof.
  intros Hclock Hrc Hf. rewrite (filter_sent_published es s Hrc) in Hf.
  apply completed_rate; assumption.
Qed.

Lemma publication_rate_witness :
  last_update (sample_register 0) + Z.of_nat 2 * Ts (sample_register 0)
  <= 2300000.
Proof.
  pose (s0 := sample_register 0).
  pose (s1 := with_last_update s0 1200000).
  apply (publication_rate sample_trace_two s0
           [invoke (sample_event 1200000 (Ret sample_camera) 0 0) s0]
           (invoke (sample_event 2300000 (Ret sample_camera) 0 0) s1)).
  - intros e [<- | [<- | [<- | []]]]; vm_compute; discriminate.
  - intros e [<- | [<- | [<- | []]]]; reflexivity.
  - reflexivity.
Defined.

(** A run of the callback changes nothing of the object but
    [last_update], and [last_update] ends as it started or as the
    line-98 reading of one of the events. *)
Theorem run_keeps_configuration (es : list env) (s : position_register) :
  let s' := final s (listen es s) in
  init_lat s' = init_lat s /\ init_long s' = init_long s
  /\ mqtt_broker s' = mqtt_broker s /\ Ts s' = Ts s
  /\ (last_update s' = last_update s
      \/ exists e, In e es /\ last_update s' = now98 e).
Proof.
  revert s. induction es as [| e es IH]; intros s.
  - cbn. repeat split; auto.
  - change (listen (e :: es) s)
      with (invoke e s :: listen es (after (invoke e s))).
    cbn [final].
    destruct (IH (after (invoke e s))) as (H1 & H2 & H3 & H4 & H5).
    cbv zeta. rewrite H1, H2, H3, H4.
    pose proof (after_invoke e s) as Hafter.
    destruct (published (invoke e s)); rewrite Hafter in *; cbn.
    + repeat split; auto. right.
      destruct H5 as [H5 | (e' & Hin & H5)].
      * exists e. split; [ left; reflexivity | exact H5 ].
      * exists e'. split; [ right; exact Hin | exact H5 ].
    + repeat split; auto.
      destruct H5 as [H5 | (e' & Hin & H5)]; [ left; exact H5 | ].
      right. exists e'. split; [ right; exact Hin | exact H5 ].
Qed.

End SamplerMore.

(** ** More on the haversine distance *)

Module HaversineMore.
Import Haversine.
Local Open Scope R_scope.

Lemma asin_nonneg (x : R) : 0 <= x -> 0 <= asin x.
Proof.
  intros Hx. pose proof PI_RGT_0 as Hpi.
  destruct (Rle_dec 1 x) as [H1 | H1].
  - unfold asin. destruct (Rle_dec x (-1)); [ lra | ].
    destruct (Rle_dec 1 x); [ lra | contradiction ].
  - rewrite asin_atan by lra.
    destruct (Req_dec x 0) as [-> | Hnz].
    + unfold Rdiv. rewrite Rmult_0_l, atan_0. lra.
    + left. rewrite <- atan_0. apply atan_increasing.
      apply Rdiv_lt_0_compat; [ lra | ].
      apply sqrt_lt_R0. unfold Rsqr. nra.
Qed.

(** The distance is the same in both directions. *)
Theorem haversine_symmetric (lat0 long0 lat long : R) :
  haversine lat0 long0 lat long = haversine lat long lat0 long0.
Proof.
  unfold haversine.
  assert (Hsq : forall a b : R, sin ((a - b) / 2) ^ 2 = sin ((b - a) / 2) ^ 2).
  { intros a b. replace ((b - a) / 2) with (- ((a - b) / 2)) by lra.
    rewrite sin_neg. ring. }
  rewrite (Hsq (deg2rad lat) (deg2rad lat0)).
  rewrite (Hsq (deg2rad long) (deg2rad long0)).
  rewrite (Rmult_comm (cos (deg2rad lat0)) (cos (deg2rad lat))).
  reflexivity.
Qed.

(** The distance is never negative and never more than half the
    circumference of the sphere of radius 6371 km, in metres. *)
Theorem haversine_bounds (lat0 long0 lat long : R) :
  0 <= haversine lat0 long0 lat long <= PI * 6371 * 1000.
Proof.
  unfold haversine.
  set (root_part := _ + _).
  pose proof (asin_bound (sqrt root_part)) as [_ Hup].
  pose proof (asin_nonneg (sqrt root_part) (sqrt_pos root_part)) as Hlo.
  split; nra.
Qed.

(** Along a meridian (no change of longitude) the distance is the arc
    of the change of latitude: 6371 km times the difference in radians,
    in metres. *)
Theorem haversine_along_meridian (lat0 lat long : R) :
  -180 <= lat - lat0 <= 180 ->
  haversine lat0 long lat long
  = 6371 * Rabs (deg2rad lat - deg2rad lat0) * 1000.
Proof.
  intros Hd. unfold haversine.
  pose proof PI_RGT_0 as Hpi.
  set (y := (deg2rad lat - deg2rad lat0) / 2).
  assert (Hy : - (PI / 2) <= y <= PI / 2).
  { subst y. unfold deg2rad. split; nra. }
  replace ((deg2rad long - deg2rad long) / 2) with 0 by lra.
  rewrite sin_0.
  replace (sin y ^ 2 + cos (deg2rad lat0) * cos (deg2rad lat) * 0 ^ 2)
    with (Rsqr (sin y)) by (unfold Rsqr; ring).
  rewrite sqrt_Rsqr_abs.
  replace (deg2rad lat - deg2rad lat0) with (2 * y) by (subst y; lra).
  rewrite Rabs_mult, (Rabs_pos_eq 2) by lra.
  assert (Hasin : asin (Rabs (sin y)) = Rabs y).
  { destruct (Rle_dec 0 y) as [Hpos | Hneg].
    - rewrite (Rabs_pos_eq y) by exact Hpos.
      rewrite Rabs_pos_eq by (apply sin_ge_0; lra).
      apply asin_sin. lra.
    - assert (Hy' : y < 0) by lra.
      rewrite (Rabs_left y) by exact Hy'.
      rewrite <- (Rabs_Ropp (sin y)), <- sin_neg.
      rewrite Rabs_pos_eq by (apply sin_ge_0; lra).
      apply asin_sin. lra. }
  rewrite Hasin. ring.
Qed.

Lemma haversine_along_meridian_witness :
  haversine 38 (-9) 39 (-9) = 6371 * Rabs (deg2rad 39 - deg2rad 38) * 1000.
Proof.
  apply (haversine_along_meridian 38 39 (-9)). lra.
Defined.

End HaversineMore.

(** ** The inbox between its writer and its reader *)

Module InboxUseFacts.
Import Inbox InboxUse InboxFacts.

Section Facts.
Context {A : Type}.
Implicit Types (l all : list A) (q : Queue A) (t : @inbox_state A).

Lemma subseq_refl l : subseq l l.
Proof. induction l; [ apply subseq_nil | apply subseq_keep; assumption ]. Qed.

Lemma subseq_app (a a' b b' : list A) :
  subseq a a' -> subseq b b' -> subseq (a ++ b) (a' ++ b').
Proof.
  intros Ha Hb. induction Ha; cbn.
  - exact Hb.
  - apply subseq_skip. assumption.
  - apply subseq_keep. assumption.
Qed.

Lemma subseq_trans (a b c : list A) :
  subseq a b -> subseq b c -> subseq a c.
Proof.
  intros Hab Hbc. revert a Hab.
  induction Hbc as [| x b c Hbc IH | x b c Hbc IH]; intros a Hab.
  - exact Hab.
  - constructor. apply IH. exact Hab.
  - inversion Hab; subst.
    + apply subseq_skip. apply IH. assumption.
    + apply subseq_keep. apply IH. assumption.
Qed.

(** Leaving one element out keeps a list a subsequence. *)
Lemma subseq_drop (a b : list A) (x : A) (c : list A) :
  subseq (a ++ x :: b) c -> subseq (a ++ b) c.
Proof.
  apply subseq_trans. apply subseq_app; [ apply subseq_refl | ].
  apply subseq_skip. apply subseq_refl.
Qed.

Lemma empty_cons (mx : Z) (x : A) l : empty (mkQueue mx (x :: l)) = false.
Proof.
  unfold empty, qsize. cbn [queue List.length].
  replace (0 <? Z.of_nat (S (List.length l))) with true; [ reflexivity | ].
  symmetry. apply Z.ltb_lt. lia.
Qed.

Lemma step_keeps (who : turn) t all :
  bounded t -> subseq (held t) all ->
  bounded (step who t) /\ subseq (held (step who t)) all.
Proof.
  intros [Hmx Hlen] Hsub.
  destruct t as [inc w r [mx q] tk]. unfold held, bounded in *.
  cbn [incoming writer reader inbox taken queue maxsize] in *. subst mx.
  destruct who; cbn [step incoming writer reader inbox taken].
  - destruct w as [ | m | m ].
    + destruct inc as [| m rest]; [ cbn; auto | ].
      destruct (negb (full (mkQueue 50 q)));
        cbn [incoming writer reader inbox taken queue maxsize in_hand app] in *;
        auto.
    + destruct q as [| x q]; cbn [get queue maxsize];
        cbn [incoming writer reader inbox taken queue maxsize in_hand app] in *;
        [ auto | ].
      split; [ split; [ reflexivity | cbn in Hlen; lia ] | ].
      apply (subseq_drop tk _ x). exact Hsub.
    + unfold put.
      destruct (full (mkQueue 50 q)) eqn:Hfull;
        cbn [incoming writer reader inbox taken queue maxsize in_hand app] in *;
        [ auto | ].
      split.
      * split; [ reflexivity | ].
        unfold full, qsize in Hfull. cbn [maxsize queue] in Hfull.
        cbn [andb Z.ltb Z.compare] in Hfull. apply Z.leb_gt in Hfull.
        rewrite length_app. cbn. lia.
      * rewrite <- app_assoc. exact Hsub.
  - destruct r.
    + cbn [incoming writer reader inbox taken queue maxsize]. auto.
    + destruct q as [| x q]; cbn [get queue maxsize];
        cbn [incoming writer reader inbox taken queue maxsize in_hand app] in *;
        [ auto | ].
      split; [ split; [ reflexivity | cbn in Hlen; lia ] | ].
      rewrite <- app_assoc. exact Hsub.
Qed.

Lemma run_keeps (sched : list turn) :
  forall t all, bounded t -> subseq (held t) all ->
                bounded (run sched t) /\ subseq (held (run sched t)) all.
Proof.
  induction sched as [| who sched IH]; intros t all Hb Hs; [ auto | ].
  cbn [run fold_left]. destruct (step_keeps who t all Hb Hs) as [Hb' Hs'].
  apply IH; assumption.
Qed.

Lemma run_turns_app (l1 l2 : list turn) t : run (l1 ++ l2) t = run l2 (run l1 t).
Proof. unfold run. apply fold_left_app. Qed.

(** [n] reads take the [n] oldest messages. *)
Lemma reads_take l :
  forall (inc : list A) (w : writer_pc) (mx : Z) (tk : list A),
    run (reads (List.length l)) (mkInbox inc w r_idle (mkQueue mx l) tk)
    = mkInbox inc w r_idle (mkQueue mx []) (tk ++ l).
Proof.
  induction l as [| x l IH]; intros inc w mx tk.
  - cbn. rewrite app_nil_r. reflexivity.
  - cbn [List.length reads run fold_left].
    cbn [step reader incoming writer inbox taken]. rewrite empty_cons.
    cbn [negb step reader get queue maxsize incoming writer inbox taken].
    fold (run (reads (List.length l))
            (mkInbox inc w r_idle (mkQueue mx l) (tk ++ [x]))).
    rewrite IH, <- app_assoc. reflexivity.
Qed.

Lemma stuck_for_ever (later : list turn) (m : A) (inc tk : list A) (mx : Z) :
  run later (mkInbox inc (w_get m) r_idle (mkQueue mx []) tk)
  = mkInbox inc (w_get m) r_idle (mkQueue mx []) tk.
Proof.
  induction later as [| who later IH]; [ reflexivity | ].
  cbn [run fold_left]. destruct who; exact IH.
Qed.

(** The inbox of capacity 50 under every interleaving of the queue
    calls of [on_message] and of the compositor's read. It never holds
    more than 50 messages, and the messages read, then those in the
    inbox, then the one [on_message] holds, then those not yet handled,
    are messages that were received, in the order of their reception,
    none twice. But [on_message] can wait for ever: when it has found
    the inbox full and the compositor reads the 50 messages before the
    [get()] of line 164, that [get()] finds the inbox empty, and
    whatever turns follow, the message stays in the hands of
    [on_message], the inbox stays empty and no later message is
    handled. *)
Theorem inbox_between_writer_and_reader :
  (forall (all : list A) (sched : list turn),
     let t := run sched (start all) in
     (List.length (queue (inbox t)) <= 50)%nat
     /\ subseq (taken t ++ queue (inbox t) ++ in_hand (writer t) ++ incoming t) all)
  /\ (forall (l50 : list A) (m : A) (rest tk : list A) (later : list turn),
        List.length l50 = 50%nat ->
        run ([writer_turn] ++ reads 50 ++ later)
          (mkInbox (m :: rest) w_idle r_idle (mkQueue 50 l50) tk)
        = mkInbox rest (w_get m) r_idle (mkQueue 50 []) (tk ++ l50)).
Proof.
  split.
  - intros all sched t. subst t.
    destruct (run_keeps sched (start all) all) as [[_ Hlen] Hsub].
    + split; [ reflexivity | cbn; lia ].
    + unfold held, start. cbn. apply subseq_refl.
    + split; [ exact Hlen | exact Hsub ].
  - intros l50 m rest tk later Hlen.
    rewrite !run_turns_app.
    assert (Hfull : full (mkQueue 50 l50) = true).
    { unfold full, qsize. cbn [maxsize queue]. rewrite Hlen. reflexivity. }
    cbn [run fold_left step writer incoming reader inbox taken].
    rewrite Hfull. cbn [negb].
    fold (run (reads 50) (mkInbox rest (w_get m) r_idle (mkQueue 50 l50) tk)).
    rewrite <- Hlen at 1. rewrite reads_take.
    apply stuck_for_ever.
Qed.

End Facts.

Lemma inbox_between_writer_and_reader_witness :
  run ([writer_turn] ++ reads 50 ++ [writer_turn; reader_turn; writer_turn])
    (mkInbox [51; 52] w_idle r_idle (mkQueue 50 (map Z.of_nat (seq 1 50))) [])
  = mkInbox [52] (w_get 51) r_idle (mkQueue 50 []) (map Z.of_nat (seq 1 50)).
Proof.
  apply (proj2 inbox_between_writer_and_reader
           (map Z.of_nat (seq 1 50)) 51 [52] []
           [writer_turn; reader_turn; writer_turn]).
  reflexivity.
Defined.

End InboxUseFacts.

(** ** Runs of the compositor and of the offline mode *)

Module CompositorRunsFacts.
Import Py Video Compositor CompositorFacts CompositorRuns.

Lemma live_payload_overlay (f : frame) (text : string) :
  live_payload (overlay_jpeg f text) = Some f.
Proof. reflexivity. Qed.

Lemma released_pair (f g : frame) (data : bytes) :
  released g [redis_publish "frame_buffer" data; unref f]
  = if Nat.eqb f g then 1%nat else 0%nat.
Proof. cbn. destruct (Nat.eqb f g); reflexivity. Qed.

Lemma count_occ_cons_eqb (f g : frame) (l : list frame) :
  count_occ Nat.eq_dec (f :: l) g
  = ((if Nat.eqb f g then 1 else 0) + count_occ Nat.eq_dec l g)%nat.
Proof.
  unfold frame in *. destruct (Nat.eqb f g) eqn:H.
  - apply Nat.eqb_eq in H. rewrite count_occ_cons_eq by exact H. reflexivity.
  - apply Nat.eqb_neq in H. rewrite count_occ_cons_neq by exact H. reflexivity.
Qed.

Lemma loop_step (t : tick) (rest : list tick) (last : string) (w : cworld) :
  processing_loop (t :: rest) false last w
  = match got t with
    | None => processing_loop rest false last (snd (receive (delivered t) w))
    | Some f =>
        match process t f last (snd (receive (delivered t) w)) with
        | (Ret last', w') => processing_loop rest (is_set t) last' w'
        | (Raise x, w') => (Raise x, w')
        end
    end.
Proof.
  cbn [processing_loop]. unfold bind at 1.
  change (receive (delivered t) w) with (Ret tt, snd (receive (delivered t) w)).
  cbv beta iota. destruct (got t); reflexivity.
Qed.

Lemma fault_free_loop (ticks : list tick) :
  forall (last : string) (w : cworld),
    (forall t, In t ticks -> fault t = None) ->
    exists w',
      processing_loop ticks false last w
      = (Ret (if flagged ticks then exited else looping), w')
      /\ map live_payload (published_frames (log w'))
         = map live_payload (published_frames (log w)) ++ map Some (handled ticks)
      /\ forall g, released g (log w')
                   = (released g (log w) + count_occ Nat.eq_dec (handled ticks) g)%nat.
Proof.
  induction ticks as [| t ticks IH]; intros last w Hf.
  - exists w. cbn. rewrite app_nil_r. repeat split; auto.
  - rewrite loop_step. cbn [handled flagged].
    set (w1 := snd (receive (delivered t) w)).
    assert (Hlog : log w1 = log w) by reflexivity.
    assert (Hrest : forall t', In t' ticks -> fault t' = None)
      by (intros t' H; apply Hf; right; exact H).
    destruct (got t) as [f | ].
    + destruct (process_success t f last w1 (Hf t (or_introl eq_refl)))
        as (text & q' & Hp).
      rewrite Hp, Hlog.
      set (w2 := mkWorld q' (log w ++ [redis_publish "frame_buffer" (overlay_jpeg f text);
                                       unref f])).
      assert (Hpub : map live_payload (published_frames (log w2))
                     = map live_payload (published_frames (log w)) ++ [Some f]).
      { subst w2. cbn [log]. rewrite published_frames_app, map_app. reflexivity. }
      assert (Hrel : forall g, released g (log w2)
                     = (released g (log w) + (if Nat.eqb f g then 1 else 0))%nat).
      { intros g. subst w2. cbn [log]. rewrite released_app, released_pair.
        reflexivity. }
      destruct (is_set t).
      * rewrite processing_loop_offline. exists w2. cbn [orb].
        split; [ reflexivity | ]. split; [ exact Hpub | ].
        intros g. rewrite Hrel, count_occ_cons_eqb. cbn. lia.
      * destruct (IH text w2 Hrest) as (w' & H1 & H2 & H3). cbn [orb].
        exists w'. split; [ exact H1 | ]. split.
        -- rewrite H2, Hpub, <- app_assoc. reflexivity.
        -- intros g. rewrite H3, Hrel, count_occ_cons_eqb. lia.
    + destruct (IH last w1 Hrest) as (w' & H1 & H2 & H3).
      rewrite Hlog in H2, H3. exists w'. auto.
Qed.

(** When no library call fails, the compositor loop publishes the
    pictures of exactly the frames it dequeued, in the order of the
    queue, up to and with the first one dequeued while the flag reads
    set, and releases each of them once; it has left the loop exactly
    when such a frame came. *)
Theorem fault_free_run (ticks : list tick) (w : cworld) :
  (forall t, In t ticks -> fault t = None) ->
  let r := yuv_frame_processing ticks w in
  fst r = Ret (if flagged ticks then exited else looping)
  /\ map live_payload (published_frames (log (snd r)))
     = map live_payload (published_frames (log w)) ++ map Some (handled ticks)
  /\ forall g, released g (log (snd r))
               = (released g (log w) + count_occ Nat.eq_dec (handled ticks) g)%nat.
Proof.
  intros Hf r. subst r. unfold yuv_frame_processing.
  destruct (fault_free_loop ticks "waiting telemetry data..." w Hf)
    as (w' & -> & H2 & H3).
  auto.
Qed.

Lemma fault_free_run_witness :
  map live_payload
    (published_frames
       (log (snd (yuv_frame_processing
                    [frame_tick 1%nat false; mkTick [] None false None;
                     frame_tick 2%nat true; frame_tick 3%nat false] start))))
  = [Some 1%nat; Some 2%nat].
Proof.
  apply (fault_free_run
           [frame_tick 1%nat false; mkTick [] None false None;
            frame_tick 2%nat true; frame_tick 3%nat false] start).
  intros t [<- | [<- | [<- | [<- | []]]]]; reflexivity.
Defined.

Lemma process_text (t : tick) (f : frame) (last : string) (mx : Z)
    (msgs : list string) (lg : list action) :
  fault t = None ->
  process t f last (mkWorld (Inbox.mkQueue mx msgs) lg)
  = let text := match msgs with [] => last | m :: _ => m end in
    (Ret text,
     mkWorld (Inbox.mkQueue mx (tl msgs))
       (lg ++ [redis_publish "frame_buffer" (overlay_jpeg f text); unref f])).
Proof.
  intros Hf. unfold process. rewrite Hf.
  destruct msgs as [| m rest];
    cbv [bind attempt ret next_telemetry emit modify fst snd];
    cbn; rewrite <- app_assoc; reflexivity.
Qed.

Lemma texts_loop (ticks : list tick) :
  forall (last : string) (mx : Z) (msgs : list string) (lg : list action),
    (forall t, In t ticks -> fault t = None /\ delivered t = []) ->
    published_frames
      (log (snd (processing_loop ticks false last
                   (mkWorld (Inbox.mkQueue mx msgs) lg))))
    = published_frames lg
      ++ map (fun ft => overlay_jpeg (fst ft) (snd ft))
           (combine (handled ticks)
              (overlay_texts msgs last (List.length (handled ticks)))).
Proof.
  induction ticks as [| t ticks IH]; intros last mx msgs lg Hq.
  - cbn. rewrite app_nil_r. reflexivity.
  - rewrite loop_step. cbn [handled].
    destruct (Hq t (or_introl eq_refl)) as [Hf Hd].
    assert (Hrest : forall t', In t' ticks -> fault t' = None /\ delivered t' = [])
      by (intros t' H; apply Hq; right; exact H).
    rewrite Hd.
    change (snd (receive [] (mkWorld (Inbox.mkQueue mx msgs) lg)))
      with (mkWorld (Inbox.mkQueue mx msgs) lg).
    destruct (got t) as [f | ]; [ | apply IH; exact Hrest ].
    rewrite (process_text t f last mx msgs lg Hf). cbv zeta.
    destruct (is_set t).
    + rewrite processing_loop_offline. cbn [snd log List.length].
      rewrite published_frames_app.
      destruct msgs; reflexivity.
    + rewrite IH by exact Hrest.
      rewrite published_frames_app, <- app_assoc. cbn [List.length].
      destruct msgs as [| m rest]; reflexivity.
Qed.

(** The overlay text when nothing arrives during the run: the frames
    handled carry the messages held by the inbox, one for each frame in
    the order of the inbox, and once the inbox is empty the text last
    shown again; with an inbox empty from the start every frame carries
    the waiting text. *)
Theorem overlay_text_of_frames (ticks : list tick) (mx : Z)
    (msgs : list string) (lg : list action) :
  (forall t, In t ticks -> fault t = None /\ delivered t = []) ->
  published_frames
    (log (snd (yuv_frame_processing ticks (mkWorld (Inbox.mkQueue mx msgs) lg))))
  = published_frames lg
    ++ map (fun ft => overlay_jpeg (fst ft) (snd ft))
         (combine (handled ticks)
            (overlay_texts msgs "waiting telemetry data..."
               (List.length (handled ticks)))).
Proof.
  intros Hq. unfold yuv_frame_processing. apply texts_loop. exact Hq.
Qed.

Lemma overlay_text_of_frames_witness :
  published_frames
    (log (snd (yuv_frame_processing
                 [frame_tick 1%nat false; frame_tick 2%nat false;
                  frame_tick 3%nat false]
                 (mkWorld (Inbox.mkQueue 50 ["a"; "b"]) []))))
  = [overlay_jpeg 1%nat "a"; overlay_jpeg 2%nat "b"; overlay_jpeg 3%nat "b"].
Proof.
  apply (overlay_text_of_frames
           [frame_tick 1%nat false; frame_tick 2%nat false; frame_tick 3%nat false]
           50 ["a"; "b"] []).
  intros t [<- | [<- | [<- | []]]]; split; reflexivity.
Defined.

Lemma offline_loop_run (ticks : list offline_tick) :
  forall w : cworld,
    (forall t, In t ticks -> offline_fault t = None) ->
    offline_loop ticks true w
    = (Ret (if flag_cleared ticks then exited else looping),
       mkWorld (message_queue w)
         (log w ++ repeat (redis_publish "frame_buffer" (imencode_jpg full_sigmund))
                     (offline_rounds ticks))).
Proof.
  induction ticks as [| t ticks IH]; intros w Hf.
  - cbn. rewrite app_nil_r. destruct w; reflexivity.
  - cbn [offline_loop negb offline_rounds flag_cleared].
    rewrite (Hf t (or_introl eq_refl)).
    cbv [bind attempt ret emit modify].
    destruct (offline_is_set t); cbn [negb orb].
    + rewrite IH by (intros t' H; apply Hf; right; exact H).
      cbn [message_queue log repeat]. rewrite <- app_assoc. reflexivity.
    + destruct ticks; reflexivity.
Qed.

(** The offline mode, when no library call fails: it empties the inbox
    once, then publishes the placeholder once in every round, the round
    in which the flag reads clear included (so at least once when it
    runs at all), and leaves exactly when the flag has read clear. *)
Theorem offline_mode_run (ticks : list offline_tick) (w : cworld) :
  (forall t, In t ticks -> offline_fault t = None) ->
  offline_mode ticks w
  = (Ret (if flag_cleared ticks then exited else looping),
     mkWorld (Inbox.mkQueue (Inbox.maxsize (message_queue w)) [])
       (log w ++ repeat (redis_publish "frame_buffer" (imencode_jpg full_sigmund))
                   (offline_rounds ticks))).
Proof.
  intros Hf. unfold offline_mode, bind, modify.
  rewrite offline_loop_run by exact Hf. reflexivity.
Qed.

Lemma offline_mode_run_witness :
  offline_mode [mkOfflineTick false None; mkOfflineTick true None] start
  = (Ret exited,
     mkWorld (Inbox.mkQueue 50 [])
       [redis_publish "frame_buffer" (imencode_jpg full_sigmund)]).
Proof.
  apply (offline_mode_run [mkOfflineTick false None; mkOfflineTick true None] start).
  intros t [<- | [<- | []]]; reflexivity.
Defined.

End CompositorRunsFacts.

(** ** The frame queue between its three threads *)

Module PipelineFacts.
Import Video Ingest IngestFacts Pipeline.

Lemma conserved3_step (base : frame -> Z) (a : sched3) (t : threads3) :
  conserved3 base t -> conserved3 base (step3 a t).
Proof.
  intros H. destruct a as [a' | | ].
  - assert (Hc : conserved (fun f => base f + held_by_compositor f t) (others t)).
    { intros f. rewrite (H f). lia. }
    apply (conserved_step _ a') in Hc.
    intros f. cbn [step3 others]. rewrite (Hc f).
    unfold held_by_compositor. cbn [composing]. lia.
  - intros f. specialize (H f).
    destruct t as [[[q rc] pc fmt enq] comp].
    unfold held_by_compositor, held_by_threads in *.
    cbn [step3 others composing shared frame_queue refcount flushing enqueuing] in *.
    destruct comp as [g | ]; [ exact H | ].
    destruct q as [| g q]; [ exact H | ].
    cbn [others composing shared frame_queue refcount flushing enqueuing].
    rewrite held_in_queue_cons in H. destruct (Nat.eqb g f); lia.
  - intros f. specialize (H f).
    destruct t as [[[q rc] pc fmt enq] comp].
    unfold held_by_compositor, held_by_threads in *.
    cbn [step3 others composing shared frame_queue refcount flushing enqueuing] in *.
    destruct comp as [g | ]; [ | exact H ].
    cbn [others composing shared frame_queue refcount flushing enqueuing].
    rewrite bump_at. destruct (Nat.eqb g f); lia.
Qed.

(** With the compositor taking frames off the same queue, and the two
    callbacks running, in any interleaving: the count of every frame is
    its base count plus the references held by the queue, by
    [yuv_frame_cb], by [flush_cb] and by the compositor. No frame is
    released twice and none loses its release. *)
Theorem pipeline_conserves_references (l : list sched3) (format : vdef_format)
    (s : store) (f : frame) :
  let t := run3 l (flush_called3 format s) in
  refcount (shared (others t)) f
  = baseline s f + held_in_queue f (frame_queue (shared (others t)))
    + held_by_threads f (others t) + held_by_compositor f t.
Proof.
  intros t. subst t.
  assert (Hgen : forall t0, conserved3 (baseline s) t0 ->
                            conserved3 (baseline s) (run3 l t0)).
  { induction l as [| a l IH]; intros t0 H0; cbn; [ exact H0 | ].
    apply IH. apply conserved3_step. exact H0. }
  apply Hgen. intros g.
  unfold flush_called3, held_by_compositor, held_by_threads, baseline. cbn. lia.
Qed.

Lemma compositor_takes_all (q : list frame) :
  forall (rc : frame -> Z) (pc : flush_pc) (fmt : vdef_format) (enq : option frame),
    run3 (compositor_takes (List.length q))
      (mkThreads3 (mkThreads (mkStore q rc) pc fmt enq) None)
    = mkThreads3 (mkThreads (mkStore [] (drain q rc)) pc fmt enq) None.
Proof.
  induction q as [| f q IH]; intros rc pc fmt enq; [ reflexivity | ].
  cbn [List.length compositor_takes run3 fold_left step3 composing others shared
       frame_queue refcount flushing stream_format enqueuing drain].
  apply IH.
Qed.

(** [flush_cb] is not safe against the compositor: when the compositor
    takes the frames between the emptiness test of [flush_cb] and its
    [get_nowait], [get_nowait] raises [queue.Empty] out of [flush_cb];
    the frames have all been released once, by the compositor. *)
Theorem flush_races_with_compositor (s : store) :
  frame_queue s <> [] ->
  let t := run3 (race (List.length (frame_queue s))) (flush_called3 VDEF_I420 s) in
  flushing (others t) = flush_raised_Empty
  /\ frame_queue (shared (others t)) = []
  /\ forall f, refcount (shared (others t)) f = baseline s f.
Proof.
  intros Hne t. subst t. destruct s as [q rc]. cbn [frame_queue] in *.
  destruct q as [| g q]; [ contradiction | ].
  unfold race, run3. rewrite !fold_left_app.
  change (fold_left (fun t a => step3 a t) [other flush_step; other flush_step]
            (flush_called3 VDEF_I420 (mkStore (g :: q) rc)))
    with (mkThreads3 (mkThreads (mkStore (g :: q) rc) at_get VDEF_I420 None) None).
  pose proof (compositor_takes_all (g :: q) rc at_get VDEF_I420 None) as Htake.
  unfold run3 in Htake. rewrite Htake.
  cbn [fold_left step3 step others composing shared frame_queue refcount flushing
       stream_format enqueuing].
  repeat split. intros f. rewrite drain_at. reflexivity.
Qed.

Lemma flush_races_with_compositor_witness :
  flushing (others (run3 (race 2) (flush_called3 VDEF_I420 sample_store)))
  = flush_raised_Empty.
Proof.
  apply (flush_races_with_compositor sample_store). discriminate.
Defined.

End PipelineFacts.

(** ** More of the pull source *)

Module ReconfigureFacts.
Import Video Restream RestreamFacts Reconfigure.

Lemma on_need_data_returns (polls : list (option bytes)) :
  forall (r : restreaming) (b : buffer) (r' : restreaming),
    on_need_data polls r = Some (b, r') ->
    exists fr,
      frame r' = Some fr /\ data b = tobytes fr
      /\ pts b = number_frames r * frame_duration
      /\ number_frames r' = number_frames r + 1
      /\ offline_frame r' = offline_frame r.
Proof.
  induction polls as [| p polls IH]; intros r b r' H; [ discriminate | ].
  cbn [on_need_data] in H.
  destruct (frame (get_message p r)) as [fr | ] eqn:Hfr.
  - injection H as <- <-. exists fr. cbn.
    destruct p, r; cbn in *; auto.
  - apply IH in H as (fr & H1 & H2 & H3 & H4 & H5).
    exists fr. cbn in H3, H4, H5.
    destruct p, r; cbn in *; auto.
Qed.

(** Once a pull has returned, the cache is never empty again (the
    placeholder itself is written into it), the buffer pushed holds the
    cached picture, and every later pull ends at its first call of
    [get_message]. *)
Theorem cache_stays_filled (polls : list (option bytes)) (r : restreaming)
    (b : buffer) (r' : restreaming) :
  on_need_data polls r = Some (b, r') ->
  (exists fr, frame r' = Some fr /\ data b = tobytes fr)
  /\ number_frames r' = number_frames r + 1
  /\ forall (p : option bytes) (rest : list (option bytes)),
       on_need_data (p :: rest) r' <> None.
Proof.
  intros H.
  destruct (on_need_data_returns polls r b r' H) as (fr & H1 & H2 & _ & H4 & _).
  split; [ exists fr; auto | ]. split; [ exact H4 | ].
  intros p rest. rewrite (on_need_data_cached p rest r' fr H1). discriminate.
Qed.

Lemma cache_stays_filled_witness :
  on_need_data [None]
    (mkRestreaming output_url_data 1
       (Some (offline_frame (init output_url_data)))
       (offline_frame (init output_url_data))) <> None.
Proof.
  apply (proj2 (proj2 (cache_stays_filled [None; None] (init output_url_data)
           (mkBuffer (tobytes (offline_frame (init output_url_data)))
              frame_duration 0 0)
           (mkRestreaming output_url_data 1
              (Some (offline_frame (init output_url_data)))
              (offline_frame (init output_url_data)))
           eq_refl)) None []).
Defined.

Lemma pulls_in_order (ms : list bytes) :
  forall r : restreaming,
    exists bs r',
      pulls (map with_message ms) r = Some (bs, r')
      /\ map data bs = map (fun m => tobytes (imdecode m)) ms.
Proof.
  induction ms as [| m ms IH]; intros r.
  - exists [], r. auto.
  - cbn [map pulls]. unfold with_message at 1. rewrite on_need_data_two.
    destruct (IH (mkRestreaming (url r) (number_frames r + 1)
                    (Some (shown (Some m) None r)) (offline_frame r)))
      as (bs & r' & Hp & Hd).
    rewrite Hp. eexists. eexists. split; [ reflexivity | ].
    cbn [map data]. rewrite Hd. reflexivity.
Qed.

(** A pull takes one waiting message, not the newest: when relay
    messages wait at every pull, the pulls show them one by one in their
    order of arrival, whatever the cache held before. *)
Theorem waiting_messages_shown_in_order (ms : list bytes) (r : restreaming) :
  exists bs r',
    pulls (map with_message ms) r = Some (bs, r')
    /\ map data bs = map (fun m => tobytes (imdecode m)) ms.
Proof. apply pulls_in_order. Qed.

(** [do_configure] starts the timestamps again from 0, whatever was
    pushed before, and keeps the cached frame: a pull that finds no
    message after it shows the frame cached before it. *)
Theorem do_configure_restarts_timestamps (r : restreaming)
    (l : list (list (option bytes))) :
  Forall (fun polls => (2 <= List.length polls)%nat) l ->
  frame (do_configure r) = frame r
  /\ (exists bs r',
        pulls l (do_configure r) = Some (bs, r')
        /\ map pts bs = stamps frame_duration 0 (List.length l))
  /\ (forall fr, frame r = Some fr ->
        exists r', on_need_data [None] (do_configure r)
                   = Some (mkBuffer (tobytes fr) frame_duration 0 0, r')).
Proof.
  intros Hl. split; [ reflexivity | ]. split.
  - destruct (pulls_stamps l (do_configure r) Hl) as (bs & r' & Hp & Hpts & _).
    exists bs, r'. auto.
  - intros fr Hfr.
    rewrite (on_need_data_cached None [] (do_configure r) fr) by exact Hfr.
    cbn. eexists. reflexivity.
Qed.

Lemma do_configure_restarts_timestamps_witness :
  exists bs r',
    pulls [[None; None]; [None; None]]
      (do_configure (mkRestreaming output_url_data 7 None
                       (offline_frame (init output_url_data))))
    = Some (bs, r')
    /\ map pts bs = stamps frame_duration 0 2.
Proof.
  apply (do_configure_restarts_timestamps
           (mkRestreaming output_url_data 7 None
              (offline_frame (init output_url_data)))
           [[None; None]; [None; None]]).
  repeat constructor.
Defined.

(** The timestamps of successive pulls grow by exactly the frame
    duration, whatever messages the pulls find. *)
Theorem timestamps_grow_by_duration (r : restreaming)
    (l : list (list (option bytes))) (k : nat) :
  Forall (fun polls => (2 <= List.length polls)%nat) l ->
  (S k < List.length l)%nat ->
  exists bs r',
    pulls l r = Some (bs, r')
    /\ nth (S k) (map pts bs) 0 = nth k (map pts bs) 0 + frame_duration
    /\ nth k (map pts bs) 0 = (number_frames r + Z.of_nat k) * frame_duration.
Proof.
  intros Hl Hk.
  destruct (pulls_stamps l r Hl) as (bs & r' & Hp & Hpts & _).
  exists bs, r'. split; [ exact Hp | ]. rewrite Hpts.
  split; [ apply stamps_step; exact Hk | apply stamps_nth; lia ].
Qed.

Lemma timestamps_grow_by_duration_witness :
  exists bs r',
    pulls [[None; None]; [None; None]; [None; None]] (init output_url_data)
    = Some (bs, r')
    /\ nth 2 (map pts bs) 0 = nth 1 (map pts bs) 0 + frame_duration
    /\ nth 1 (map pts bs) 0 = (0 + Z.of_nat 1) * frame_duration.
Proof.
  apply (timestamps_grow_by_duration (init output_url_data)
           [[None; None]; [None; None]; [None; None]] 1).
  - repeat constructor.
  - cbn. lia.
Defined.

Lemma placeholder_until_first_message_witness :
  exists bs r',
    pulls [[None; None]; [None; None]] (init output_url_data) = Some (bs, r')
    /\ Forall (fun b => data b = tobytes (offline_frame (init output_url_data))) bs.
Proof.
  apply (placeholder_until_first_message output_url_data
           [[None; None]; [None; None]]).
  repeat constructor.
Defined.

Lemma cached_frame_repeated_witness :
  exists bs r',
    pulls ((Some (imencode_jpg (to_ndarray 1%nat)) :: [None]) :: [[None]; [None]])
      (init output_url_data) = Some (bs, r')
    /\ Forall (fun b => data b = tobytes (imdecode (imencode_jpg (to_ndarray 1%nat)))) bs
    /\ List.length bs = 3%nat.
Proof.
  apply (cached_frame_repeated (imencode_jpg (to_ndarray 1%nat)) [None]
           (init output_url_data) [[None]; [None]]).
  repeat constructor.
Defined.

End ReconfigureFacts.

(** ** [begin_register] *)

Module AcquisitionFacts.
Import Py Acquisition.

(** [begin_register] subscribes once and then waits: while the flag
    reads clear nothing else is done; at the first reading of the flag as
    set the drone is disconnected, once, and the function returns if the
    disconnection succeeded and raises TypeError if not; later answers
    of the flag are not looked at. *)
Theorem begin_register_disconnects_once (n : nat) (later : list bool)
    (disconnected : bool) :
  begin_register (repeat false n) disconnected = (None, [subscribe])
  /\ begin_register (repeat false n ++ true :: later) disconnected
     = (Some (if disconnected then Ret tt else Raise disconnect_error),
        [subscribe; drone_disconnect]).
Proof.
  unfold begin_register. split.
  - induction n as [| n IH]; [ reflexivity | ]. cbn [repeat register_loop].
    exact IH.
  - induction n as [| n IH]; cbn [repeat app register_loop].
    + destruct disconnected; reflexivity.
    + exact IH.
Qed.

End AcquisitionFacts.
